(** * Vector store service (app/core/vector_store.py)

    A shallow embedding of the Qdrant service layer: the dimension table,
    the cached client accessor and the methods of [VectorStoreService].
    The vector database, the LangChain store built on it and the UUID
    source are external collaborators; they enter the model through the
    [Backend] interface and the [uuid4] supply, and every statement below
    quantifies over them. *)

From stdpp Require Import gmap strings list pretty.
From Stdlib Require Import ZArith QArith Qabs.

Local Open Scope string_scope.
Local Open Scope Z_scope.

(** ** Python-level notions *)

Module Py.

(** The part of the exception hierarchy the handlers of the module tell
    apart: [UnexpectedResponse] (a non-success HTTP answer of the store,
    with its status code), and every other subclass of [Exception]. *)
Inductive exn : Type :=
| UnexpectedResponse (status_code : Z)
| ResponseHandlingException (cause : string)
| OtherException (cls : string).

(** [except UnexpectedResponse:] *)
Definition is_UnexpectedResponse (e : exn) : bool :=
  match e with
  | UnexpectedResponse _ => true
  | _ => false
  end.

(** [except Exception:] *)
Definition is_Exception (e : exn) : bool := true.

(** The store answers a lookup of a missing collection with HTTP 404. *)
Definition is_not_found (e : exn) : bool :=
  match e with
  | UnexpectedResponse code => code =? 404
  | _ => false
  end.

Inductive result (A : Type) : Type :=
| Ok (a : A)
| Raise (e : exn).
Global Arguments Ok {A} a.
Global Arguments Raise {A} e.

(** [x or d] on an optional integer: [None] and [0] are falsy. *)
Definition or_int (x : option Z) (d : Z) : Z :=
  match x with
  | Some v => if v =? 0 then d else v
  | None => d
  end.

(** [x or d] on an optional string: [None] and the empty string are falsy. *)
Definition or_str (x : option string) (d : string) : string :=
  match x with
  | Some EmptyString => d
  | Some v => v
  | None => d
  end.

(** Truthiness of an optional string, as in [if settings.qdrant_api_key:]. *)
Definition truthy_str (x : option string) : bool :=
  match x with
  | Some EmptyString => false
  | Some _ => true
  | None => false
  end.

End Py.
Import Py.

(** ** Data of the external libraries *)

Inductive Distance := COSINE | EUCLID | DOT | MANHATTAN.

Record VectorParams := { size : Z; distance : Distance }.

(** [collection_info.config.params.vectors]: one unnamed vector, a dict of
    named vectors (insertion-ordered), or absent. *)
Inductive VectorsConfig :=
| SingleVector (p : VectorParams)
| NamedVectors (d : list (string * VectorParams))
| NoVectors.

Inductive CollectionStatus := GREEN | YELLOW | GREY | RED.

(** [status.value] *)
Definition status_value (s : CollectionStatus) : string :=
  match s with
  | GREEN => "green"
  | YELLOW => "yellow"
  | GREY => "grey"
  | RED => "red"
  end.

Record CollectionInfo := {
  info_status : CollectionStatus;
  info_points_count : Z;
  info_indexed_vectors_count : Z;
  info_vectors : VectorsConfig
}.

Record Document := { page_content : string; metadata : list (string * string) }.

Record QdrantClient := {
  instance_id : nat;
  client_url : string;
  client_api_key : option string
}.

(** ** Configuration *)

(** Modelled from the spec: app.config is not among the sources; the
    recognised options are the store URL, the optional API key, the
    collection name, the embedding model name and the default result
    count. *)
Record Settings := {
  qdrant_url : string;
  qdrant_api_key : option string;
  settings_collection_name : string;
  embedding_model : string;
  retrieval_k : Z
}.

(** Modelled from the spec: app.core.embeddings is not among the sources;
    the embedding provider is determined by the configured model name. *)
Record Embeddings := { embeddings_model : string }.

Inductive level := DEBUG | INFO | WARNING | ERROR.

(** ** The dimension table *)

Definition EMBEDDING_DIMENSIONS : gmap string Z :=
  <["text-embedding-ada-002" := 1536]>
    (<["text-embedding-3-large" := 3072]>
       (<["text-embedding-3-small" := 1536]> ∅)).

(** ** The world the service runs in *)

Record QdrantVectorStore := {
  vs_client : QdrantClient;
  vs_collection_name : string;
  vs_embedding : Embeddings;
  vs_vector_name : string
}.

(** Requests sent to the external store, in the order they are issued. *)
Inductive request :=
| Connect (url : string) (api_key : option string)
| GetCollection (name : string)
| CreateCollection (name : string) (vectors_config : VectorParams)
| DeleteCollection (name : string)
| GetCollections
| OpenVectorStore (collection vector_name : string)
| AddDocuments (vs : QdrantVectorStore) (documents : list Document) (ids : list string)
| SimilaritySearch (vs : QdrantVectorStore) (query : string) (k : Z)
| SimilaritySearchWithScore (vs : QdrantVectorStore) (query : string) (k : Z).

(** The external store: each operation answers from its own state [S],
    with a value or with an exception. *)
Class Backend (S : Type) := {
  be_connect : string -> option string -> S -> result unit * S;
  be_get_collection : string -> S -> result CollectionInfo * S;
  be_create_collection : string -> VectorParams -> S -> result bool * S;
  be_delete_collection : string -> S -> result bool * S;
  be_get_collections : S -> result (list string) * S;
  be_open_vector_store : string -> string -> S -> result unit * S;
  be_add_documents :
    QdrantVectorStore -> list Document -> list string -> S -> result (list string) * S;
  be_similarity_search :
    QdrantVectorStore -> string -> Z -> S -> result (list Document) * S;
  be_similarity_search_with_score :
    QdrantVectorStore -> string -> Z -> S -> result (list (Document * Q)) * S
}.

Record World (S : Type) := mkWorld {
  store : S;
  requests : list request;
  logs : list level;
  uuids_drawn : nat;
  lru_cache : option QdrantClient;
  instances : nat
}.
Arguments mkWorld {S}.
Arguments store {S}.
Arguments requests {S}.
Arguments logs {S}.
Arguments uuids_drawn {S}.
Arguments lru_cache {S}.
Arguments instances {S}.

(** ** A state and exception monad *)

Definition M (S A : Type) : Type := World S -> result A * World S.

Global Instance M_ret {S} : MRet (M S) := λ A a w, (Ok a, w).

Definition raise {S A} (e : exn) : M S A := λ w, (Raise e, w).

Global Instance M_bind {S} : MBind (M S) := λ A B f m w,
  match m w with
  | (Ok a, w') => f a w'
  | (Raise e, w') => (Raise e, w')
  end.

(** [try: body except C: handler], where [catches] decides membership in
    the class [C]; an exception outside [C] passes through. *)
Definition try_except {S A} (body : M S A) (catches : exn -> bool)
    (handler : exn -> M S A) : M S A :=
  λ w,
    match body w with
    | (Ok a, w') => (Ok a, w')
    | (Raise e, w') => if catches e then handler e w' else (Raise e, w')
    end.

(** [logger.debug/info/warning/error]: only the level is recorded. *)
Definition log {S} (l : level) : M S unit :=
  λ w, (Ok tt, mkWorld (store w) (requests w) (logs w ++ [l]) (uuids_drawn w)
                     (lru_cache w) (instances w)).

(** Send request [r] and let the store answer it. *)
Definition perform {S A} (r : request) (answer : S -> result A * S) : M S A :=
  λ w,
    let '(a, s') := answer (store w) in
    (a, mkWorld s' (requests w ++ [r]) (logs w) (uuids_drawn w)
          (lru_cache w) (instances w)).

(** ** The service object *)

(** [self] after the first three assignments of [__init__]: the state the
    two private methods run on. *)
Record ServiceBase := {
  collection_name : string;
  client : QdrantClient;
  embeddings : Embeddings
}.

Record VectorStoreService := {
  base :> ServiceBase;
  vector_store : QdrantVectorStore
}.

(** The dict returned by [get_collection_info]. *)
Record CollectionStats := {
  stats_name : string;
  stats_points_count : Z;
  stats_indexed_vectors_count : Z;
  stats_status : string
}.

(** The handle returned by [as_retriever]. *)
Record Retriever := {
  retriever_store : QdrantVectorStore;
  search_type : string;
  search_kwargs_k : Z
}.

Section Service.

Context {S : Type} `{!Backend S}.

(** [settings = get_settings()] *)
Variable settings : Settings.

(** The UUID source: [uuid4 n] is the text of the [n]-th identifier the
    process draws. *)
Variable uuid4 : nat -> string.

Abbreviation M := (M S).

(** *** Calls into the external libraries *)

Definition client_get_collection (name : string) : M CollectionInfo :=
  perform (GetCollection name) (be_get_collection name).

Definition client_create_collection (name : string) (cfg : VectorParams) : M bool :=
  perform (CreateCollection name cfg) (be_create_collection name cfg).

Definition client_delete_collection (name : string) : M bool :=
  perform (DeleteCollection name) (be_delete_collection name).

Definition client_get_collections : M (list string) :=
  perform GetCollections be_get_collections.

Definition vector_store_add_documents (vs : QdrantVectorStore)
    (documents : list Document) (ids : list string) : M (list string) :=
  perform (AddDocuments vs documents ids) (be_add_documents vs documents ids).

Definition vector_store_similarity_search (vs : QdrantVectorStore)
    (query : string) (k : Z) : M (list Document) :=
  perform (SimilaritySearch vs query k) (be_similarity_search vs query k).

Definition vector_store_similarity_search_with_score (vs : QdrantVectorStore)
    (query : string) (k : Z) : M (list (Document * Q)) :=
  perform (SimilaritySearchWithScore vs query k)
          (be_similarity_search_with_score vs query k).

(** [QdrantClient(url=..., api_key=...)]: a new object, whose identity is the
    number of clients constructed before it. *)
Definition new_QdrantClient (url : string) (api_key : option string) : M QdrantClient :=
  λ w,
    match be_connect url api_key (store w) with
    | (Ok _, s') =>
        (Ok {| instance_id := instances w; client_url := url; client_api_key := api_key |},
         mkWorld s' (requests w ++ [Connect url api_key]) (logs w) (uuids_drawn w)
           (lru_cache w) (Datatypes.S (instances w)))
    | (Raise e, s') =>
        (Raise e,
         mkWorld s' (requests w ++ [Connect url api_key]) (logs w) (uuids_drawn w)
           (lru_cache w) (instances w))
    end.

(** [QdrantVectorStore(client=..., collection_name=..., embedding=...,
    vector_name=...)] *)
Definition new_QdrantVectorStore (c : QdrantClient) (name : string)
    (e : Embeddings) (vector_name : string) : M QdrantVectorStore :=
  perform (OpenVectorStore name vector_name) (be_open_vector_store name vector_name) ;;
  mret {| vs_client := c; vs_collection_name := name;
         vs_embedding := e; vs_vector_name := vector_name |}.

(** [str(uuid4())] *)
Definition str_uuid4 : M string :=
  λ w, (Ok (uuid4 (uuids_drawn w)),
            mkWorld (store w) (requests w) (logs w) (Datatypes.S (uuids_drawn w))
              (lru_cache w) (instances w)).

(** [@lru_cache] on a function without arguments: the first value
    returned is kept; an exception is not cached. *)
Definition lru_cached (body : M QdrantClient) : M QdrantClient :=
  λ w,
    match lru_cache w with
    | Some c => (Ok c, w)
    | None =>
        match body w with
        | (Ok c, w') =>
            (Ok c, mkWorld (store w') (requests w') (logs w') (uuids_drawn w')
                     (Some c) (instances w'))
        | (Raise e, w') => (Raise e, w')
        end
    end.

Definition get_embeddings : Embeddings :=
  {| embeddings_model := embedding_model settings |}.

(** *** The module *)

Definition get_embedding_dimension : M Z :=
  let model := embedding_model settings in
  let dimension := EMBEDDING_DIMENSIONS !! model in
  match dimension with
  | None => log WARNING ;; mret 1536
  | Some dimension => log DEBUG ;; mret dimension
  end.

Definition get_qdrant_client : M QdrantClient :=
  lru_cached
    (log INFO ;;
     let url := qdrant_url settings in
     let api_key :=
       if truthy_str (qdrant_api_key settings) then qdrant_api_key settings else None in
     (if truthy_str (qdrant_api_key settings) then log INFO else log INFO) ;;
     client ← new_QdrantClient url api_key;
     log INFO ;;
     mret client).

(** [[str(uuid4()) for _ in documents]] *)
Fixpoint uuid4_for_each (documents : list Document) : M (list string) :=
  match documents with
  | [] => mret []
  | _ :: rest =>
      i ← str_uuid4;
      ids ← uuid4_for_each rest;
      mret (i :: ids)
  end.

Definition _ensure_collection (self : ServiceBase) : M unit :=
  try_except
    (collection_info ← client_get_collection (collection_name self);
     log INFO)
    is_UnexpectedResponse
    (λ _,
       embedding_dim ← get_embedding_dimension;
       log INFO;;
       client_create_collection (collection_name self)
         {| size := embedding_dim; distance := COSINE |};;
       log INFO).

Definition _get_vector_name (self : ServiceBase) : M string :=
  try_except
    (collection_info ← client_get_collection (collection_name self);
     let vectors_config := info_vectors collection_info in
     match vectors_config with
     | NamedVectors d =>
         let vector_names := d.*1 in
         match vector_names with
         | vector_name :: _ => log INFO;; mret vector_name
         | [] => log INFO;; mret EmptyString
         end
     | _ => log INFO;; mret EmptyString
     end)
    is_Exception
    (λ e, log WARNING;; mret EmptyString).

Definition __init__ (collection_name : option string) : M VectorStoreService :=
  let name := or_str collection_name (settings_collection_name settings) in
  client ← get_qdrant_client;
  let embeddings := get_embeddings in
  let self := {| collection_name := name; client := client; embeddings := embeddings |} in
  _ensure_collection self;;
  vector_name ← _get_vector_name self;
  vector_store ← new_QdrantVectorStore client name embeddings vector_name;
  log INFO;;
  mret {| base := self; vector_store := vector_store |}.

Definition add_documents (self : VectorStoreService) (documents : list Document)
    : M (list string) :=
  match documents with
  | [] => log WARNING;; mret []
  | _ :: _ =>
      log INFO;;
      ids ← uuid4_for_each documents;
      vector_store_add_documents (vector_store self) documents ids;;
      log INFO;;
      mret ids
  end.

Definition search (self : VectorStoreService) (query : string) (k : option Z)
    : M (list Document) :=
  let k := or_int k (retrieval_k settings) in
  log DEBUG;;
  results ← vector_store_similarity_search (vector_store self) query k;
  log DEBUG;;
  mret results.

Definition search_with_scores (self : VectorStoreService) (query : string)
    (k : option Z) : M (list (Document * Q)) :=
  let k := or_int k (retrieval_k settings) in
  log DEBUG;;
  results ← vector_store_similarity_search_with_score (vector_store self) query k;
  log DEBUG;;
  mret results.

Definition get_retriever (self : VectorStoreService) (k : option Z) : M Retriever :=
  let k := or_int k (retrieval_k settings) in
  mret {| retriever_store := vector_store self;
          search_type := "similarity";
          search_kwargs_k := k |}.

Definition delete_collection (self : VectorStoreService) : M unit :=
  log WARNING;;
  client_delete_collection (collection_name self);;
  log INFO.

Definition get_collection_info (self : VectorStoreService) : M CollectionStats :=
  try_except
    (info ← client_get_collection (collection_name self);
     mret {| stats_name := collection_name self;
             stats_points_count := info_points_count info;
             stats_indexed_vectors_count := info_indexed_vectors_count info;
             stats_status := status_value (info_status info) |})
    is_UnexpectedResponse
    (λ _,
       mret {| stats_name := collection_name self;
               stats_points_count := 0;
               stats_indexed_vectors_count := 0;
               stats_status := "not_found" |}).

Definition health_check (self : VectorStoreService) : M bool :=
  try_except
    (client_get_collections;;
     mret true)
    is_Exception
    (λ e, log ERROR;; mret false).

End Service.

(** ** Observations on results *)

(** Scores never increase along the list. *)
Fixpoint descending (l : list (Document * Q)) : bool :=
  match l with
  | a :: (b :: _) as rest => Qle_bool b.2 a.2 && descending rest
  | _ => true
  end.

(** What a caller can expect of the store's similarity search: at most
    the requested number of results, best score first. *)
Class TopK (S : Type) `{!Backend S} := {
  search_at_most :
    ∀ vs query k s results s',
      be_similarity_search vs query k s = (Ok results, s') →
      Z.of_nat (length results) ≤ k;
  search_with_score_at_most :
    ∀ vs query k s results s',
      be_similarity_search_with_score vs query k s = (Ok results, s') →
      Z.of_nat (length results) ≤ k;
  search_with_score_descending :
    ∀ vs query k s results s',
      be_similarity_search_with_score vs query k s = (Ok results, s') →
      descending results = true
}.

(** ** An in-memory store

    A small executable store with the observable behaviour of the vector
    database: collections by name, HTTP 404 for a missing collection,
    ranked search, and a schedule of faults to inject. The service is run
    against it on concrete inputs. *)

Module Memory.

Record collection := {
  vectors : VectorsConfig;
  points : list (string * Document)
}.

Record state := {
  collections : gmap string collection;
  faults : list (option exn)
}.

(** Answer [normal], unless the schedule has a fault for this request. *)
Definition answering {A} (normal : gmap string collection → result A * gmap string collection)
    (s : state) : result A * state :=
  match faults s with
  | Some e :: rest => (Raise e, {| collections := collections s; faults := rest |})
  | None :: rest =>
      let '(a, c) := normal (collections s) in (a, {| collections := c; faults := rest |})
  | [] =>
      let '(a, c) := normal (collections s) in (a, {| collections := c; faults := [] |})
  end.

Fixpoint common_prefix (a b : string) : nat :=
  match a, b with
  | String x a', String y b' => if Ascii.eqb x y then Datatypes.S (common_prefix a' b') else O
  | _, _ => O
  end.

Definition relevance (query : string) (d : Document) : Q :=
  inject_Z (Z.of_nat (common_prefix query (page_content d))).

Fixpoint insert_desc (x : Document * Q) (l : list (Document * Q)) : list (Document * Q) :=
  match l with
  | [] => [x]
  | y :: rest => if Qle_bool y.2 x.2 then x :: y :: rest else y :: insert_desc x rest
  end.

Definition ranked (query : string) (pts : list (string * Document)) : list (Document * Q) :=
  foldr insert_desc [] ((λ p, (p.2, relevance query p.2)) <$> pts).

Definition nearest (name query : string) (k : Z) (c : gmap string collection)
    : result (list (Document * Q)) * gmap string collection :=
  match c !! name with
  | None => (Raise (UnexpectedResponse 404), c)
  | Some col =>
      if k <? 1 then (Raise (UnexpectedResponse 422), c)
      else (Ok (take (Z.to_nat k) (ranked query (points col))), c)
  end.

Global Instance backend : Backend state := {|
  be_connect _ _ := answering (λ c, (Ok tt, c));
  be_get_collection name := answering (λ c,
    match c !! name with
    | Some col =>
        (Ok {| info_status := GREEN;
               info_points_count := Z.of_nat (length (points col));
               info_indexed_vectors_count := 0;
               info_vectors := vectors col |}, c)
    | None => (Raise (UnexpectedResponse 404), c)
    end);
  be_create_collection name cfg := answering (λ c,
    match c !! name with
    | Some _ => (Raise (UnexpectedResponse 409), c)
    | None => (Ok true, <[name := {| vectors := SingleVector cfg; points := [] |}]> c)
    end);
  be_delete_collection name := answering (λ c, (Ok true, delete name c));
  be_get_collections := answering (λ c, (Ok (map_to_list c).*1, c));
  be_open_vector_store _ _ := answering (λ c, (Ok tt, c));
  be_add_documents vs documents ids := answering (λ c,
    match c !! vs_collection_name vs with
    | Some col =>
        (Ok ids,
         <[vs_collection_name vs :=
             {| vectors := vectors col; points := points col ++ zip ids documents |}]> c)
    | None => (Raise (UnexpectedResponse 404), c)
    end);
  be_similarity_search vs query k := answering (λ c,
    match nearest (vs_collection_name vs) query k c with
    | (Ok r, c') => (Ok r.*1, c')
    | (Raise e, c') => (Raise e, c')
    end);
  be_similarity_search_with_score vs query k :=
    answering (nearest (vs_collection_name vs) query k)
|}.

(** The process at start: nothing requested, nothing cached. *)
Definition boot (c : gmap string collection) (f : list (option exn)) : World state :=
  mkWorld {| collections := c; faults := f |} [] [] 0 None 0.

(** A stand-in for the UUID source: the decimal numeral of the draw. *)
Definition counter_uuid (n : nat) : string := pretty n.

Definition test_settings : Settings := {|
  qdrant_url := "http://localhost:6333";
  qdrant_api_key := None;
  settings_collection_name := "documents";
  embedding_model := "text-embedding-3-large";
  retrieval_k := 4
|}.

Definition doc (text : string) : Document := {| page_content := text; metadata := [] |}.

Definition the_client : QdrantClient :=
  {| instance_id := 0; client_url := "http://localhost:6333"; client_api_key := None |}.

Definition service_base : ServiceBase :=
  {| collection_name := "documents"; client := the_client;
     embeddings := {| embeddings_model := "text-embedding-3-large" |} |}.

(** The service [VectorStoreService()] builds on an empty store. *)
Definition service : VectorStoreService :=
  {| base := service_base;
     vector_store :=
       {| vs_client := the_client; vs_collection_name := "documents";
          vs_embedding := {| embeddings_model := "text-embedding-3-large" |};
          vs_vector_name := EmptyString |} |}.

(** A store whose collection keeps its vectors under two names. *)
Definition named_collections : gmap string collection :=
  {[ "documents" :=
       {| vectors := NamedVectors [("dense", {| size := 3072; distance := COSINE |});
                                   ("title", {| size := 1536; distance := DOT |})];
          points := [] |} ]}.

(** The world after [VectorStoreService()] on an empty store. *)
Definition ready : World state := (__init__ test_settings None (boot ∅ [])).2.

(** The same, after three documents were added. *)
Definition stocked : World state :=
  (add_documents counter_uuid service [doc "alpha"; doc "beta"; doc "alp"] ready).2.

End Memory.

(** ** The spec's vocabulary *)

(** The spec's [dimension_for]: a lookup in the dimension table, 1536 for a
    model that is not in it. *)
Definition dimension_for (model : string) : Z :=
  default 1536 (EMBEDDING_DIMENSIONS !! model).

(** [list(EMBEDDING_DIMENSIONS.keys())] *)
Definition known_models : list string :=
  ["text-embedding-3-small"; "text-embedding-3-large"; "text-embedding-ada-002"].

(** ** The lifetime of a process *)

(** The calls a user of the module can make. *)
Inductive call :=
| CallGetEmbeddingDimension
| CallGetQdrantClient
| CallInit (collection_name : option string)
| CallAddDocuments (self : VectorStoreService) (documents : list Document)
| CallSearch (self : VectorStoreService) (query : string) (k : option Z)
| CallSearchWithScores (self : VectorStoreService) (query : string) (k : option Z)
| CallGetRetriever (self : VectorStoreService) (k : option Z)
| CallDeleteCollection (self : VectorStoreService)
| CallGetCollectionInfo (self : VectorStoreService)
| CallHealthCheck (self : VectorStoreService).

Section Lifetime.

Context {S : Type} `{!Backend S}.
Variable settings : Settings.
Variable uuid4 : nat -> string.

(** The world after a call, whatever it returned or raised. *)
Definition after (c : call) (w : World S) : World S :=
  match c with
  | CallGetEmbeddingDimension => (get_embedding_dimension settings w).2
  | CallGetQdrantClient => (get_qdrant_client settings w).2
  | CallInit name => (__init__ settings name w).2
  | CallAddDocuments self documents => (add_documents uuid4 self documents w).2
  | CallSearch self query k => (search settings self query k w).2
  | CallSearchWithScores self query k => (search_with_scores settings self query k w).2
  | CallGetRetriever self k => (get_retriever settings self k w).2
  | CallDeleteCollection self => (delete_collection self w).2
  | CallGetCollectionInfo self => (get_collection_info self w).2
  | CallHealthCheck self => (health_check self w).2
  end.

Definition lifetime (cs : list call) (w : World S) : World S :=
  foldl (λ w c, after c w) w cs.

(** The clients handed out along a sequence of calls: by the accessor
    itself, and to each service that [__init__] completes. *)
Fixpoint clients_handed_out (cs : list call) (w : World S) : list QdrantClient :=
  match cs with
  | [] => []
  | c :: rest =>
      match c with
      | CallGetQdrantClient =>
          match get_qdrant_client settings w with
          | (Ok cl, _) => [cl]
          | (Raise _, _) => []
          end
      | CallInit name =>
          match __init__ settings name w with
          | (Ok self, _) => [client self]
          | (Raise _, _) => []
          end
      | _ => []
      end ++ clients_handed_out rest (after c w)
  end.

(** A process that has not called the accessor yet. *)
Definition fresh_process (w : World S) : Prop :=
  lru_cache w = None ∧ instances w = O.

End Lifetime.

(** A computation that leaves the client cache alone. *)
Definition keeps_client {S A} (m : M S A) : Prop :=
  ∀ w, lru_cache (m w).2 = lru_cache w ∧ instances (m w).2 = instances w.

(** The cache holds the one client constructed so far, if any. *)
Definition at_most_one_client {S} (w : World S) : Prop :=
  match lru_cache w with
  | None => instances w = O
  | Some _ => instances w = 1%nat
  end.

(** ** Specifications of computations *)

(** [sends P Q m]: from every world, [m] appends to the trace only
    requests that satisfy [P], and a value it returns satisfies [Q]. *)
Definition sends {S A} (P : request → Prop) (Q : A → Prop) (m : M S A) : Prop :=
  ∀ w, (∃ rs, requests (m w).2 = (requests w ++ rs)%list ∧ Forall P rs)
       ∧ ∀ a, (m w).1 = Ok a → Q a.

(** A computation after which no identifier drawn before is drawn again. *)
Definition draws_forward {S A} (m : M S A) : Prop :=
  ∀ w, (uuids_drawn w ≤ uuids_drawn (m w).2)%nat.

Definition not_delete (r : request) : Prop :=
  match r with
  | DeleteCollection _ => False
  | _ => True
  end.

(** A creation request, if [r] is one, asks for the configuration [cfg]. *)
Definition creates_with (cfg : VectorParams) (r : request) : Prop :=
  match r with
  | CreateCollection _ c => c = cfg
  | _ => True
  end.

Definition not_connect (r : request) : Prop :=
  match r with
  | Connect _ _ => False
  | _ => True
  end.

Definition is_delete_call (c : call) : bool :=
  match c with
  | CallDeleteCollection _ => true
  | _ => false
  end.

(** * Properties *)

(** ** Running monadic code *)

Section Monad.

Context {S : Type}.

Lemma bind_ok {A B} (m : M S A) (f : A → M S B) w a w' :
  m w = (Ok a, w') → (m ≫= f) w = f a w'.
Proof. intros E. unfold mbind, M_bind. by rewrite E. Qed.

Lemma bind_raise {A B} (m : M S A) (f : A → M S B) w e w' :
  m w = (Raise e, w') → (m ≫= f) w = (Raise e, w').
Proof. intros E. unfold mbind, M_bind. by rewrite E. Qed.

Lemma try_ok {A} (body : M S A) catches handler w a w' :
  body w = (Ok a, w') → try_except body catches handler w = (Ok a, w').
Proof. intros E. unfold try_except. by rewrite E. Qed.

Lemma try_caught {A} (body : M S A) catches handler w e w' :
  body w = (Raise e, w') → catches e = true →
  try_except body catches handler w = handler e w'.
Proof. intros E C. unfold try_except. by rewrite E, C. Qed.

Lemma try_passed {A} (body : M S A) catches handler w e w' :
  body w = (Raise e, w') → catches e = false →
  try_except body catches handler w = (Raise e, w').
Proof. intros E C. unfold try_except. by rewrite E, C. Qed.

Lemma perform_answer {A} (r : request) (answer : S → result A * S) w a s' :
  answer (store w) = (a, s') →
  perform r answer w =
    (a, mkWorld s' (requests w ++ [r]) (logs w) (uuids_drawn w) (lru_cache w) (instances w)).
Proof. intros E. unfold perform. by rewrite E. Qed.

End Monad.

Lemma not_found_is_UnexpectedResponse e :
  is_not_found e = true → is_UnexpectedResponse e = true.
Proof. by destruct e. Qed.

(** ** The dimension table *)

Lemma EMBEDDING_DIMENSIONS_unknown (model : string) :
  model ∉ known_models → EMBEDDING_DIMENSIONS !! model = None.
Proof.
  unfold known_models, EMBEDDING_DIMENSIONS. intros Hn.
  rewrite !not_elem_of_cons in Hn. destruct Hn as (H1 & H2 & H3 & _).
  by rewrite !lookup_insert_ne, lookup_empty.
Qed.

(** The known models are the keys of the table. *)
Lemma known_models_are_keys (model : string) :
  model ∈ known_models ↔ is_Some (EMBEDDING_DIMENSIONS !! model).
Proof.
  split.
  - unfold known_models. rewrite !elem_of_cons.
    intros [-> | [-> | [-> | []%elem_of_nil]]]; by eexists.
  - intros [d Hd]. destruct (decide (model ∈ known_models)) as [|Hn]; [done|].
    rewrite (EMBEDDING_DIMENSIONS_unknown _ Hn) in Hd. discriminate Hd.
Qed.

Section Dimension.

Context {S : Type} `{!Backend S}.

(** C5. For each of the three model names of the dimension table the
    configured model yields the documented constant (1536, 3072, 1536);
    for every other model name the function yields 1536; in every case
    it returns a value and raises nothing. *)
Theorem get_embedding_dimension_table (st : Settings) (w : World S) :
  (embedding_model st = "text-embedding-3-small" →
     (get_embedding_dimension st w).1 = Ok 1536)
  ∧ (embedding_model st = "text-embedding-3-large" →
       (get_embedding_dimension st w).1 = Ok 3072)
  ∧ (embedding_model st = "text-embedding-ada-002" →
       (get_embedding_dimension st w).1 = Ok 1536)
  ∧ (embedding_model st ∉ known_models →
       (get_embedding_dimension st w).1 = Ok 1536)
  ∧ (∃ dimension, (get_embedding_dimension st w).1 = Ok dimension).
Proof.
  unfold get_embedding_dimension.
  repeat split.
  - intros ->. reflexivity.
  - intros ->. reflexivity.
  - intros ->. reflexivity.
  - intros Hu. by rewrite (EMBEDDING_DIMENSIONS_unknown _ Hu).
  - destruct (EMBEDDING_DIMENSIONS !! embedding_model st) as [d|]; by eexists.
Qed.

End Dimension.

Lemma get_embedding_dimension_table_witness :
  (get_embedding_dimension Memory.test_settings (Memory.boot ∅ [])).1 = Ok 3072
  ∧ (get_embedding_dimension
       {| qdrant_url := "http://qdrant:6333"; qdrant_api_key := None; settings_collection_name := "c";
          embedding_model := "all-MiniLM-L6-v2"; retrieval_k := 4 |}
       (Memory.boot ∅ [])).1 = Ok 1536.
Proof.
  split.
  - apply (get_embedding_dimension_table Memory.test_settings (Memory.boot ∅ [])).
    reflexivity.
  - apply (get_embedding_dimension_table _ (Memory.boot ∅ [])).
    unfold known_models. simpl. rewrite !not_elem_of_cons. repeat split; try done.
    apply not_elem_of_nil.
Defined.

(** ** Adding documents *)

Section Adding.

Context {S : Type} `{!Backend S}.
Variable uuid4 : nat → string.

Lemma uuid4_for_each_draws (documents : list Document) (w : World S) :
  uuid4_for_each uuid4 documents w =
    (Ok (uuid4 <$> seq (uuids_drawn w) (length documents)),
     mkWorld (store w) (requests w) (logs w) (uuids_drawn w + length documents)%nat
       (lru_cache w) (instances w)).
Proof.
  revert w. induction documents as [|d rest IH]; intros w; simpl.
  - destruct w; simpl. unfold mret, M_ret. do 3 f_equal. lia.
  - unfold mbind, M_bind, str_uuid4. rewrite IH. simpl.
    unfold mret, M_ret. do 3 f_equal. lia.
Qed.

Lemma add_documents_run (self : VectorStoreService) (d : Document)
    (rest : list Document) (w : World S) :
  let documents := d :: rest in
  let ids := uuid4 <$> seq (uuids_drawn w) (length documents) in
  let answer := be_add_documents (vector_store self) documents ids (store w) in
  add_documents uuid4 self documents w =
    (match answer.1 with Ok _ => Ok ids | Raise e => Raise e end,
     mkWorld answer.2
       (requests w ++ [AddDocuments (vector_store self) documents ids])
       (logs w ++ [INFO] ++ match answer.1 with Ok _ => [INFO] | Raise _ => [] end)
       (uuids_drawn w + length documents)%nat (lru_cache w) (instances w)).
Proof.
  intros documents ids answer. unfold add_documents. subst documents. cbv iota.
  erewrite bind_ok by reflexivity.
  erewrite bind_ok by apply uuid4_for_each_draws.
  fold ids. unfold vector_store_add_documents.
  destruct answer as [[r|e] s'] eqn:Hanswer; simpl.
  - erewrite bind_ok by (by apply perform_answer).
    erewrite bind_ok by reflexivity. simpl.
    by rewrite <- app_assoc.
  - by erewrite bind_raise by (by apply perform_answer).
Qed.

(** C4. On the empty list [add_documents] returns the empty list; it sends
    no request, leaves the store as it was and draws no identifier. *)
Theorem add_documents_empty (self : VectorStoreService) (w : World S) :
  ∃ w', add_documents uuid4 self [] w = (Ok [], w')
        ∧ store w' = store w
        ∧ requests w' = requests w
        ∧ uuids_drawn w' = uuids_drawn w.
Proof. by eexists. Qed.

(** C3. On a non-empty list, with a UUID source that never repeats,
    [add_documents] draws one identifier per document: the identifiers
    are as many as the documents, pairwise distinct, distinct from every
    identifier drawn before, and the [i]-th identifier is the [i]-th draw
    of the call. They are sent to the store next to the documents, and
    they are what the call returns once the store has accepted them; an
    exception of the store is raised to the caller. *)
Theorem add_documents_fresh_ids (self : VectorStoreService)
    (documents : list Document) (w : World S) :
  Inj (=) (=) uuid4 →
  documents ≠ [] →
  ∃ ids w',
    length ids = length documents
    ∧ NoDup ids
    ∧ (∀ n, (n < uuids_drawn w)%nat → uuid4 n ∉ ids)
    ∧ (∀ i, (i < length documents)%nat → ids !! i = Some (uuid4 (uuids_drawn w + i)))
    ∧ requests w' = (requests w ++ [AddDocuments (vector_store self) documents ids])%list
    ∧ add_documents uuid4 self documents w =
        (match (be_add_documents (vector_store self) documents ids (store w)).1 with
         | Ok _ => Ok ids
         | Raise e => Raise e
         end, w').
Proof.
  intros Hinj Hne.
  destruct documents as [|d rest]; [done|].
  eexists _, _.
  split_and!; last by apply add_documents_run.
  - by rewrite length_fmap, length_seq.
  - apply NoDup_fmap_2; [done | apply NoDup_seq].
  - intros n Hn [m [Hm Hin]]%list_elem_of_fmap. apply Hinj in Hm. subst m.
    apply elem_of_seq in Hin. lia.
  - intros i Hi. rewrite list_lookup_fmap, lookup_seq_lt; done.
  - done.
Qed.

End Adding.

Lemma add_documents_fresh_ids_witness :
  ∃ ids : list string,
    length ids = 2%nat ∧ NoDup ids
    ∧ (add_documents Memory.counter_uuid Memory.service
         [Memory.doc "alpha"; Memory.doc "beta"] Memory.ready).1 = Ok ids.
Proof.
  destruct (add_documents_fresh_ids Memory.counter_uuid Memory.service
              [Memory.doc "alpha"; Memory.doc "beta"] Memory.ready)
    as (ids & w' & Hlen & Hnd & _ & Hids & _ & Hrun).
  - unfold Memory.counter_uuid. apply pretty_nat_inj.
  - discriminate.
  - exists ids. split; [exact Hlen|]. split; [exact Hnd|].
    rewrite Hrun. simpl fst.
    assert (ids = ["0"; "1"]) as ->; [|reflexivity].
    destruct ids as [|a [|b [|c ids]]]; try discriminate Hlen.
    pose proof (Hids 0%nat ltac:(simpl; lia)) as H0.
    pose proof (Hids 1%nat ltac:(simpl; lia)) as H1.
    vm_compute in H0, H1. congruence.
Defined.

(** ** Collections *)

Section Collections.

Context {S : Type} `{!Backend S}.

Lemma get_embedding_dimension_run (st : Settings) (w : World S) :
  ∃ lvl,
    get_embedding_dimension st w =
      (Ok (dimension_for (embedding_model st)),
       mkWorld (store w) (requests w) (logs w ++ [lvl]) (uuids_drawn w)
         (lru_cache w) (instances w)).
Proof.
  unfold get_embedding_dimension, dimension_for.
  destruct (EMBEDDING_DIMENSIONS !! embedding_model st); by eexists.
Qed.

(** The collection exists: one lookup, nothing created. *)
Lemma ensure_collection_exists (st : Settings) (self : ServiceBase) (w : World S)
    info s1 :
  be_get_collection (collection_name self) (store w) = (Ok info, s1) →
  ∃ w', _ensure_collection st self w = (Ok tt, w')
        ∧ store w' = s1
        ∧ requests w' = (requests w ++ [GetCollection (collection_name self)])%list.
Proof.
  intros Hget. eexists. split.
  - unfold _ensure_collection, client_get_collection.
    eapply try_ok. erewrite bind_ok by (by apply perform_answer). reflexivity.
  - done.
Qed.

(** An [UnexpectedResponse] of any status leads to a creation request. *)
Lemma ensure_collection_creates (st : Settings) (self : ServiceBase) (w : World S)
    e s1 :
  be_get_collection (collection_name self) (store w) = (Raise e, s1) →
  is_UnexpectedResponse e = true →
  let cfg := {| size := dimension_for (embedding_model st); distance := COSINE |} in
  let created := be_create_collection (collection_name self) cfg s1 in
  ∃ w', _ensure_collection st self w =
          (match created.1 with Ok _ => Ok tt | Raise e' => Raise e' end, w')
        ∧ store w' = created.2
        ∧ requests w' =
            (requests w ++ [GetCollection (collection_name self);
                            CreateCollection (collection_name self) cfg])%list.
Proof.
  intros Hget Hcatch cfg created.
  unfold _ensure_collection, client_get_collection, client_create_collection.
  erewrite try_caught; [| by erewrite bind_raise by (by apply perform_answer) | done].
  destruct (get_embedding_dimension_run st
              (mkWorld s1 (requests w ++ [GetCollection (collection_name self)])
                 (logs w) (uuids_drawn w) (lru_cache w) (instances w)))
    as [lvl Hdim].
  erewrite bind_ok by exact Hdim.
  erewrite bind_ok by reflexivity.
  subst created. simpl.
  destruct (be_create_collection (collection_name self) cfg s1) as [[b|e'] s2] eqn:Hmk.
  - erewrite bind_ok by (by apply perform_answer). simpl.
    eexists. split; [reflexivity|]. simpl. by rewrite <- app_assoc.
  - erewrite bind_raise by (by apply perform_answer). simpl.
    eexists. split; [reflexivity|]. simpl. by rewrite <- app_assoc.
Qed.

(** Any other exception of the lookup leaves [_ensure_collection] as it
    came, after the one lookup request. *)
Lemma ensure_collection_propagates (st : Settings) (self : ServiceBase) (w : World S)
    e s1 :
  be_get_collection (collection_name self) (store w) = (Raise e, s1) →
  is_UnexpectedResponse e = false →
  ∃ w', _ensure_collection st self w = (Raise e, w')
        ∧ store w' = s1
        ∧ requests w' = (requests w ++ [GetCollection (collection_name self)])%list.
Proof.
  intros Hget Hcatch. eexists. split.
  - unfold _ensure_collection, client_get_collection.
    eapply try_passed; [| done].
    by erewrite bind_raise by (by apply perform_answer).
  - done.
Qed.

(** C1 (amended). When the lookup of [_ensure_collection] fails with
    a "not found" answer, or with any other [UnexpectedResponse], the
    method asks the store to create the collection with vector size
    [dimension_for embedding_model] and cosine distance, and its outcome
    is the outcome of that request. A lookup failure that is not an
    [UnexpectedResponse] is raised to the caller, after the lookup
    request alone: no creation is requested. *)
Theorem ensure_collection_on_lookup_failure (st : Settings) (self : ServiceBase)
    (w : World S) e s1 :
  be_get_collection (collection_name self) (store w) = (Raise e, s1) →
  let cfg := {| size := dimension_for (embedding_model st); distance := COSINE |} in
  let created := be_create_collection (collection_name self) cfg s1 in
  let creation w' :=
    _ensure_collection st self w =
      (match created.1 with Ok _ => Ok tt | Raise e' => Raise e' end, w')
    ∧ store w' = created.2
    ∧ requests w' =
        (requests w ++ [GetCollection (collection_name self);
                        CreateCollection (collection_name self) cfg])%list in
  (is_not_found e = true → ∃ w', creation w')
  ∧ (is_UnexpectedResponse e = true → ∃ w', creation w')
  ∧ (is_UnexpectedResponse e = false →
       ∃ w', _ensure_collection st self w = (Raise e, w')
             ∧ store w' = s1
             ∧ requests w' = (requests w ++ [GetCollection (collection_name self)])%list).
Proof.
  intros Hget cfg created creation. split_and!.
  - intros Hnf%not_found_is_UnexpectedResponse.
    exact (ensure_collection_creates st self w e s1 Hget Hnf).
  - intros Hur. exact (ensure_collection_creates st self w e s1 Hget Hur).
  - intros Hother. exact (ensure_collection_propagates st self w e s1 Hget Hother).
Qed.

(** C6. When the lookup of [get_collection_info] is answered "not found",
    the method returns the record with the collection name, zero points,
    zero indexed vectors and status "not_found"; it raises nothing. *)
Theorem get_collection_info_not_found (self : VectorStoreService) (w : World S) e s1 :
  be_get_collection (collection_name self) (store w) = (Raise e, s1) →
  is_not_found e = true →
  ∃ w', get_collection_info self w =
          (Ok {| stats_name := collection_name self;
                 stats_points_count := 0;
                 stats_indexed_vectors_count := 0;
                 stats_status := "not_found" |}, w').
Proof.
  intros Hget Hnf%not_found_is_UnexpectedResponse. eexists.
  unfold get_collection_info, client_get_collection.
  erewrite try_caught; [reflexivity | | done].
  by erewrite bind_raise by (by apply perform_answer).
Qed.

Lemma get_vector_name_run (self : ServiceBase) (w : World S) :
  ∃ w',
    _get_vector_name self w =
      (Ok match (be_get_collection (collection_name self) (store w)).1 with
          | Ok info =>
              match info_vectors info with
              | NamedVectors ((key, _) :: _) => key
              | _ => EmptyString
              end
          | Raise _ => EmptyString
          end, w').
Proof.
  unfold _get_vector_name, client_get_collection.
  destruct (be_get_collection (collection_name self) (store w)) as [[info|e] s1] eqn:Hget;
    simpl.
  - unfold try_except.
    erewrite bind_ok by (by apply perform_answer). cbv zeta.
    destruct (info_vectors info) as [p|[|[key p] rest]|]; by eexists.
  - erewrite try_caught; [by eexists | | done].
    by erewrite bind_raise by (by apply perform_answer).
Qed.

(** C8. [_get_vector_name] returns the first key of the vectors
    configuration when the collection keeps its vectors under names, the
    empty string when it has the one unnamed vector (or no name at all),
    and the empty string when the lookup raises; it always returns a
    string and never raises. *)
Theorem get_vector_name_cases (self : ServiceBase) (w : World S) :
  let lookup := (be_get_collection (collection_name self) (store w)).1 in
  (∀ info key p rest,
      lookup = Ok info → info_vectors info = NamedVectors ((key, p) :: rest) →
      (_get_vector_name self w).1 = Ok key)
  ∧ (∀ info p,
       lookup = Ok info → info_vectors info = SingleVector p →
       (_get_vector_name self w).1 = Ok EmptyString)
  ∧ (∀ info,
       lookup = Ok info →
       info_vectors info = NamedVectors [] ∨ info_vectors info = NoVectors →
       (_get_vector_name self w).1 = Ok EmptyString)
  ∧ (∀ e, lookup = Raise e → (_get_vector_name self w).1 = Ok EmptyString)
  ∧ (∃ name, (_get_vector_name self w).1 = Ok name).
Proof.
  intros lookup. subst lookup.
  destruct (get_vector_name_run self w) as [w' ->]. simpl fst.
  split_and!.
  - intros info key p rest -> Hv. by rewrite Hv.
  - intros info p -> Hv. by rewrite Hv.
  - intros info -> [Hv|Hv]; by rewrite Hv.
  - by intros e ->.
  - by eexists.
Qed.

(** C7. [health_check] always returns a boolean and never raises; the
    boolean is [true] exactly when the probe [get_collections] returned,
    and [false] whatever exception the probe raised. *)
Theorem health_check_total (self : VectorStoreService) (w : World S) :
  ∃ b w',
    health_check self w = (Ok b, w')
    ∧ (b = true ↔ ∃ names, (be_get_collections (store w)).1 = Ok names)
    ∧ (∀ e, (be_get_collections (store w)).1 = Raise e → b = false).
Proof.
  unfold health_check, client_get_collections.
  destruct (be_get_collections (store w)) as [[names|e] s1] eqn:Hprobe; simpl.
  - exists true. eexists. split_and!.
    + eapply try_ok. erewrite bind_ok by (by apply perform_answer). reflexivity.
    + split; [by eexists | done].
    + intros e [=].
  - exists false. eexists. split_and!.
    + erewrite try_caught; [reflexivity | | done].
      by erewrite bind_raise by (by apply perform_answer).
    + split; [done | by intros [names [=]]].
    + done.
Qed.

End Collections.

Lemma ensure_collection_on_lookup_failure_witness :
  (∃ w', _ensure_collection Memory.test_settings Memory.service_base (Memory.boot ∅ []) =
           (Ok tt, w')
         ∧ requests w' =
             [GetCollection "documents";
              CreateCollection "documents" {| size := 3072; distance := COSINE |}])
  ∧ (∃ w', _ensure_collection Memory.test_settings Memory.service_base
             (Memory.boot ∅ [Some (ResponseHandlingException "timed out")]) =
             (Raise (ResponseHandlingException "timed out"), w')
           ∧ requests w' = [GetCollection "documents"]).
Proof.
  split.
  - destruct (ensure_collection_on_lookup_failure Memory.test_settings Memory.service_base
                (Memory.boot ∅ []) (UnexpectedResponse 404)
                {| Memory.collections := ∅; Memory.faults := [] |})
      as (Hnf & _ & _); [reflexivity|].
    destruct (Hnf eq_refl) as (w' & Hrun & _ & Hreq).
    exists w'. split; [exact Hrun | exact Hreq].
  - destruct (ensure_collection_on_lookup_failure Memory.test_settings Memory.service_base
                (Memory.boot ∅ [Some (ResponseHandlingException "timed out")])
                (ResponseHandlingException "timed out")
                {| Memory.collections := ∅; Memory.faults := [] |})
      as (_ & _ & Hother); [reflexivity|].
    destruct (Hother eq_refl) as (w' & Hrun & _ & Hreq).
    exists w'. split; [exact Hrun | exact Hreq].
Defined.

(** C1, as stated, fails: a lookup answered with HTTP 500 is not a "not
    found" answer, yet [_ensure_collection] does not raise it; it requests
    the creation and returns. *)
Lemma ensure_collection_server_error_counterexample :
  ¬ (∀ (st : Settings) (self : ServiceBase) (w : World Memory.state) e s1,
       be_get_collection (collection_name self) (store w) = (Raise e, s1) →
       is_not_found e = false →
       ∃ w', _ensure_collection st self w = (Raise e, w')
             ∧ ∀ cfg, CreateCollection (collection_name self) cfg ∉ requests w').
Proof.
  intros claim.
  destruct (claim Memory.test_settings Memory.service_base
              (Memory.boot ∅ [Some (UnexpectedResponse 500)])
              (UnexpectedResponse 500)
              {| Memory.collections := ∅; Memory.faults := [] |})
    as (w' & Hrun & _); [reflexivity | reflexivity |].
  vm_compute in Hrun. discriminate Hrun.
Qed.

Example ensure_collection_server_error_run :
  let out := _ensure_collection Memory.test_settings Memory.service_base
               (Memory.boot ∅ [Some (UnexpectedResponse 500)]) in
  out.1 = Ok tt
  ∧ requests out.2 =
      [GetCollection "documents";
       CreateCollection "documents" {| size := 3072; distance := COSINE |}]
  ∧ is_Some (Memory.collections (store out.2) !! "documents").
Proof. vm_compute. split_and!; try reflexivity. by eexists. Qed.

Lemma get_collection_info_not_found_witness :
  ∃ w', get_collection_info Memory.service (Memory.boot ∅ []) =
          (Ok {| stats_name := "documents";
                 stats_points_count := 0;
                 stats_indexed_vectors_count := 0;
                 stats_status := "not_found" |}, w').
Proof.
  apply (get_collection_info_not_found Memory.service (Memory.boot ∅ [])
           (UnexpectedResponse 404)
           {| Memory.collections := ∅; Memory.faults := [] |}); reflexivity.
Defined.

Lemma get_vector_name_cases_witness :
  (_get_vector_name Memory.service_base (Memory.boot Memory.named_collections [])).1
    = Ok "dense"
  ∧ (_get_vector_name Memory.service_base Memory.ready).1 = Ok EmptyString
  ∧ (_get_vector_name Memory.service_base
       (Memory.boot ∅ [Some (OtherException "ConnectError")])).1 = Ok EmptyString.
Proof.
  split_and!.
  - destruct (get_vector_name_cases Memory.service_base
                (Memory.boot Memory.named_collections [])) as (Hnamed & _).
    eapply Hnamed; reflexivity.
  - destruct (get_vector_name_cases Memory.service_base Memory.ready)
      as (_ & Hsingle & _).
    eapply Hsingle; reflexivity.
  - destruct (get_vector_name_cases Memory.service_base
                (Memory.boot ∅ [Some (OtherException "ConnectError")]))
      as (_ & _ & _ & Hraise & _).
    eapply Hraise; reflexivity.
Defined.

(** ** Searching *)

Section Searching.

Context {S : Type} `{!Backend S}.

Lemma search_run (st : Settings) (self : VectorStoreService) (query : string)
    (k : option Z) (w : World S) :
  let k' := or_int k (retrieval_k st) in
  let answer := be_similarity_search (vector_store self) query k' (store w) in
  ∃ w', search st self query k w = (answer.1, w')
        ∧ store w' = answer.2
        ∧ requests w' =
            (requests w ++ [SimilaritySearch (vector_store self) query k'])%list.
Proof.
  intros k' answer. unfold search, vector_store_similarity_search. fold k'.
  erewrite bind_ok by reflexivity.
  destruct answer as [[r|e] s'] eqn:Hanswer; simpl.
  - erewrite bind_ok by (by apply perform_answer).
    erewrite bind_ok by reflexivity. by eexists.
  - erewrite bind_raise by (by apply perform_answer). by eexists.
Qed.

Lemma search_with_scores_run (st : Settings) (self : VectorStoreService)
    (query : string) (k : option Z) (w : World S) :
  let k' := or_int k (retrieval_k st) in
  let answer := be_similarity_search_with_score (vector_store self) query k' (store w) in
  ∃ w', search_with_scores st self query k w = (answer.1, w')
        ∧ store w' = answer.2
        ∧ requests w' =
            (requests w ++ [SimilaritySearchWithScore (vector_store self) query k'])%list.
Proof.
  intros k' answer.
  unfold search_with_scores, vector_store_similarity_search_with_score. fold k'.
  erewrite bind_ok by reflexivity.
  destruct answer as [[r|e] s'] eqn:Hanswer; simpl.
  - erewrite bind_ok by (by apply perform_answer).
    erewrite bind_ok by reflexivity. by eexists.
  - erewrite bind_raise by (by apply perform_answer). by eexists.
Qed.

Lemma or_int_nonzero (k : option Z) (d : Z) : d ≠ 0 → or_int k d ≠ 0.
Proof.
  intros Hd. destruct k as [v|]; simpl; [|done].
  destruct (v =? 0) eqn:Hv; [done|]. by apply Z.eqb_neq.
Qed.

(** C10. An explicit [k = 0] is the same call as [k] left out, for
    [search], [search_with_scores] and [get_retriever]: the request (or
    the retriever) carries the configured default. Whatever [k] the
    caller passes, the count sent to the store is zero only if the
    configured default is. *)
Theorem explicit_zero_is_default (st : Settings) (self : VectorStoreService)
    (query : string) (w : World S) :
  search st self query (Some 0) w = search st self query None w
  ∧ search_with_scores st self query (Some 0) w = search_with_scores st self query None w
  ∧ get_retriever st self (Some 0) w = get_retriever st self None w
  ∧ requests (search st self query (Some 0) w).2 =
      (requests w ++ [SimilaritySearch (vector_store self) query (retrieval_k st)])%list
  ∧ requests (search_with_scores st self query (Some 0) w).2 =
      (requests w
         ++ [SimilaritySearchWithScore (vector_store self) query (retrieval_k st)])%list
  ∧ get_retriever st self (Some 0) w =
      (Ok {| retriever_store := vector_store self;
             search_type := "similarity";
             search_kwargs_k := retrieval_k st |}, w)
  ∧ (∀ k, ∃ k',
       requests (search st self query k w).2 =
         (requests w ++ [SimilaritySearch (vector_store self) query k'])%list
       ∧ (retrieval_k st ≠ 0 → k' ≠ 0)).
Proof.
  split_and!; try reflexivity.
  - destruct (search_run st self query (Some 0) w) as (w' & -> & _ & Hreq). exact Hreq.
  - destruct (search_with_scores_run st self query (Some 0) w) as (w' & -> & _ & Hreq).
    exact Hreq.
  - intros k. exists (or_int k (retrieval_k st)). split.
    + destruct (search_run st self query k w) as (w' & -> & _ & Hreq). exact Hreq.
    + apply or_int_nonzero.
Qed.

Context `{!TopK S}.

(** C2 (amended). With [k] left out [search] asks the store for the
    configured default count. Against a store that answers with at most
    the requested number of results, best score first: the result of
    [search] has at most [k] elements for every [k] other than [0], and
    at most the configured default when [k] is left out or is [0]; the
    result of [search_with_scores] obeys the same bounds and is ordered
    by descending score. *)
Theorem search_results_bounded (st : Settings) (self : VectorStoreService)
    (query : string) (k : option Z) (w : World S) :
  requests (search st self query None w).2 =
    (requests w ++ [SimilaritySearch (vector_store self) query (retrieval_k st)])%list
  ∧ (∀ results w',
       search st self query k w = (Ok results, w') →
       (∀ n, k = Some n → n ≠ 0 → Z.of_nat (length results) ≤ n)
       ∧ (k = None ∨ k = Some 0 → Z.of_nat (length results) ≤ retrieval_k st))
  ∧ (∀ results w',
       search_with_scores st self query k w = (Ok results, w') →
       descending results = true
       ∧ (∀ n, k = Some n → n ≠ 0 → Z.of_nat (length results) ≤ n)
       ∧ (k = None ∨ k = Some 0 → Z.of_nat (length results) ≤ retrieval_k st)).
Proof.
  assert (∀ n, n ≠ 0 → or_int (Some n) (retrieval_k st) = n) as Hgiven.
  { intros n Hn. simpl. destruct (n =? 0) eqn:Hz; [|done]. by apply Z.eqb_eq in Hz. }
  split_and!.
  - destruct (search_run st self query None w) as (w' & -> & _ & Hreq). exact Hreq.
  - intros results w' Hrun.
    destruct (search_run st self query k w) as (w1 & Hrun1 & _).
    rewrite Hrun in Hrun1. injection Hrun1 as Hres _. symmetry in Hres.
    destruct (be_similarity_search (vector_store self) query
                (or_int k (retrieval_k st)) (store w)) as [a s'] eqn:Hanswer.
    simpl in Hres. subst a. apply search_at_most in Hanswer.
    split.
    + intros n -> Hn. by rewrite (Hgiven n Hn) in Hanswer.
    + by intros [-> | ->].
  - intros results w' Hrun.
    destruct (search_with_scores_run st self query k w) as (w1 & Hrun1 & _).
    rewrite Hrun in Hrun1. injection Hrun1 as Hres _. symmetry in Hres.
    destruct (be_similarity_search_with_score (vector_store self) query
                (or_int k (retrieval_k st)) (store w)) as [a s'] eqn:Hanswer.
    simpl in Hres. subst a.
    pose proof (search_with_score_at_most _ _ _ _ _ _ Hanswer) as Hlen.
    apply search_with_score_descending in Hanswer.
    split_and!; [done | |].
    + intros n -> Hn. by rewrite (Hgiven n Hn) in Hlen.
    + by intros [-> | ->].
Qed.

End Searching.

(** ** The in-memory store answers as a store should *)

Section MemoryFacts.

Import Memory.

Lemma descending_cons a l :
  descending (a :: l) = true ↔
    match l with [] => True | b :: _ => Qle_bool b.2 a.2 = true end
    ∧ descending l = true.
Proof.
  destruct l as [|b l]; simpl; [naive_solver|].
  rewrite andb_true_iff. naive_solver.
Qed.

Lemma Qle_bool_false_flip x y : Qle_bool x y = false → Qle_bool y x = true.
Proof.
  intros Hf. apply Qle_bool_iff. apply Qlt_le_weak, Qnot_le_lt.
  intros Hle. apply Qle_bool_iff in Hle. congruence.
Qed.

Lemma insert_desc_descending x l :
  descending l = true → descending (insert_desc x l) = true.
Proof.
  induction l as [|y rest IH]; [done|].
  intros [Hhead Hrest]%descending_cons. simpl insert_desc.
  destruct (Qle_bool y.2 x.2) eqn:Hyx.
  - apply descending_cons. split; [done|]. by apply descending_cons.
  - apply descending_cons. split; [|by apply IH].
    destruct rest as [|z rest']; simpl.
    + by apply Qle_bool_false_flip.
    + destruct (Qle_bool z.2 x.2); [by apply Qle_bool_false_flip | done].
Qed.

Lemma ranked_descending query pts : descending (ranked query pts) = true.
Proof.
  unfold ranked. induction pts as [|p pts IH]; [done|].
  rewrite fmap_cons. simpl foldr. by apply insert_desc_descending.
Qed.

Lemma take_descending n l : descending l = true → descending (take n l) = true.
Proof.
  revert l. induction n as [|n IH]; intros [|a l]; try done.
  intros [Hhead Hrest]%descending_cons. simpl take.
  apply descending_cons. split; [|by apply IH].
  destruct l as [|b l]; [by destruct n|]. by destruct n.
Qed.

Lemma answering_ok {A} (normal : gmap string collection → result A * gmap string collection)
    s a s' :
  answering normal s = (Ok a, s') → ∃ c', normal (collections s) = (Ok a, c').
Proof.
  unfold answering. destruct (faults s) as [|[e|] rest].
  - destruct (normal (collections s)) as [r c]. intros [= -> _]. by eexists.
  - intros [=].
  - destruct (normal (collections s)) as [r c]. intros [= -> _]. by eexists.
Qed.

Lemma nearest_ok name query k c results c' :
  nearest name query k c = (Ok results, c') →
  1 ≤ k ∧ ∃ pts, results = take (Z.to_nat k) (ranked query pts).
Proof.
  unfold nearest. destruct (c !! name) as [col|]; [|intros [=]].
  destruct (k <? 1) eqn:Hk; [intros [=]|]. apply Z.ltb_ge in Hk.
  intros [= <- _]. split; [done | by eexists].
Qed.

Global Instance memory_top_k : TopK state.
Proof.
  split.
  - intros vs query k s results s' [c' Hn]%answering_ok.
    destruct (nearest (vs_collection_name vs) query k (collections s))
      as [[r|e] c] eqn:Hnear; [|discriminate Hn].
    injection Hn as <- _. apply nearest_ok in Hnear as [Hk [pts ->]].
    rewrite length_fmap, length_take. lia.
  - intros vs query k s results s' [c' Hn]%answering_ok.
    apply nearest_ok in Hn as [Hk [pts ->]]. rewrite length_take. lia.
  - intros vs query k s results s' [c' Hn]%answering_ok.
    apply nearest_ok in Hn as [_ [pts ->]]. apply take_descending, ranked_descending.
Qed.

End MemoryFacts.

Lemma explicit_zero_is_default_witness :
  requests (search Memory.test_settings Memory.service "alpine" (Some 0) Memory.stocked).2 =
    (requests Memory.stocked
       ++ [SimilaritySearch (vector_store Memory.service) "alpine" 4])%list
  ∧ search Memory.test_settings Memory.service "alpine" (Some 0) Memory.stocked =
      search Memory.test_settings Memory.service "alpine" None Memory.stocked.
Proof.
  destruct (explicit_zero_is_default Memory.test_settings Memory.service "alpine"
              Memory.stocked) as (Hsame & _ & _ & Hreq & _).
  split; [exact Hreq | exact Hsame].
Defined.

Lemma search_results_bounded_witness :
  ∃ results w',
    search_with_scores Memory.test_settings Memory.service "alpine" (Some 2) Memory.stocked
      = (Ok results, w')
    ∧ descending results = true
    ∧ Z.of_nat (length results) ≤ 2.
Proof.
  destruct (search_with_scores Memory.test_settings Memory.service "alpine" (Some 2)
              Memory.stocked) as [[results|e] w'] eqn:Hrun; [|by vm_compute in Hrun].
  exists results, w'. split; [reflexivity|].
  destruct (search_results_bounded (TopK0 := memory_top_k) Memory.test_settings
              Memory.service "alpine" (Some 2) Memory.stocked) as (_ & _ & Hscores).
  destruct (Hscores results w' Hrun) as (Hdesc & Hlen & _).
  split; [exact Hdesc | apply (Hlen 2); [reflexivity | lia]].
Defined.

(** C2, as stated, fails at [k = 0]: the default count is used, and the
    three stored documents come back. *)
Lemma search_explicit_zero_counterexample :
  ¬ (∀ (st : Settings) (self : VectorStoreService) (query : string) (k : Z)
       (w : World Memory.state) results w',
       search st self query (Some k) w = (Ok results, w') →
       Z.of_nat (length results) ≤ k).
Proof.
  intros claim.
  destruct (search Memory.test_settings Memory.service "alpine" (Some 0) Memory.stocked)
    as [[results|e] w'] eqn:Hrun; [|by vm_compute in Hrun].
  pose proof (claim _ _ _ _ _ _ _ Hrun) as Hlen.
  vm_compute in Hrun. injection Hrun as <- _. simpl in Hlen. lia.
Qed.

Example search_explicit_zero_run :
  (search Memory.test_settings Memory.service "alpine" (Some 0) Memory.stocked).1 =
    Ok [Memory.doc "alpha"; Memory.doc "alp"; Memory.doc "beta"].
Proof. vm_compute. reflexivity. Qed.

(** ** The cached client *)

Section Client.

Context {S : Type} `{!Backend S}.
Variable settings : Settings.
Variable uuid4 : nat → string.

Lemma keeps_ret {A} (a : A) : keeps_client (mret a : M S A).
Proof. done. Qed.

Lemma keeps_log (l : level) : keeps_client (log l : M S unit).
Proof. done. Qed.

Lemma keeps_perform {A} r (answer : S → result A * S) : keeps_client (perform r answer).
Proof. intros w. unfold perform. by destruct (answer (store w)). Qed.

Lemma keeps_str_uuid4 : keeps_client (str_uuid4 uuid4 : M S string).
Proof. done. Qed.

Lemma keeps_bind {A B} (m : M S A) (f : A → M S B) :
  keeps_client m → (∀ a, keeps_client (f a)) → keeps_client (m ≫= f).
Proof.
  intros Hm Hf w. unfold mbind, M_bind.
  destruct (Hm w) as [Hc Hi]. destruct (m w) as [[a|e] w1]; simpl in *.
  - destruct (Hf a w1) as [Hc' Hi']. split; congruence.
  - done.
Qed.

Lemma keeps_try {A} (body : M S A) catches handler :
  keeps_client body → (∀ e, keeps_client (handler e)) →
  keeps_client (try_except body catches handler).
Proof.
  intros Hb Hh w. unfold try_except.
  destruct (Hb w) as [Hc Hi]. destruct (body w) as [[a|e] w1]; simpl in *; [done|].
  destruct (catches e); [|done].
  destruct (Hh e w1) as [Hc' Hi']. split; congruence.
Qed.

Lemma keeps_uuid4_for_each documents :
  keeps_client (uuid4_for_each uuid4 documents : M S (list string)).
Proof.
  induction documents as [|d rest IH]; simpl.
  - apply keeps_ret.
  - apply keeps_bind; [apply keeps_str_uuid4|]. intros i.
    apply keeps_bind; [apply IH|]. intros ids. apply keeps_ret.
Qed.

Local Ltac keeps :=
  repeat first
    [ apply keeps_ret | apply keeps_log | apply keeps_perform
    | apply keeps_uuid4_for_each
    | apply keeps_bind; [|intros ?]
    | apply keeps_try; [|intros ?]
    | progress cbv zeta
    | match goal with
      | |- keeps_client (match ?x with _ => _ end) => destruct x
      end ].

Lemma keeps_get_embedding_dimension :
  keeps_client (get_embedding_dimension settings : M S Z).
Proof. unfold get_embedding_dimension. keeps. Qed.

Lemma keeps_ensure_collection self : keeps_client (_ensure_collection settings self).
Proof.
  unfold _ensure_collection, client_get_collection, client_create_collection.
  apply keeps_try; [keeps|]. intros e.
  apply keeps_bind; [apply keeps_get_embedding_dimension|]. intros d. keeps.
Qed.

Lemma keeps_get_vector_name self : keeps_client (_get_vector_name self).
Proof. unfold _get_vector_name, client_get_collection. keeps. Qed.

Lemma keeps_new_QdrantVectorStore c name e v :
  keeps_client (new_QdrantVectorStore c name e v).
Proof. unfold new_QdrantVectorStore. keeps. Qed.

Lemma keeps_add_documents self documents :
  keeps_client (add_documents uuid4 self documents).
Proof. unfold add_documents, vector_store_add_documents. keeps. Qed.

Lemma keeps_search self query k : keeps_client (search settings self query k).
Proof. unfold search, vector_store_similarity_search. keeps. Qed.

Lemma keeps_search_with_scores self query k :
  keeps_client (search_with_scores settings self query k).
Proof. unfold search_with_scores, vector_store_similarity_search_with_score. keeps. Qed.

Lemma keeps_get_retriever self k :
  keeps_client (get_retriever settings self k : M S Retriever).
Proof. unfold get_retriever. keeps. Qed.

Lemma keeps_delete_collection self : keeps_client (delete_collection self).
Proof. unfold delete_collection, client_delete_collection. keeps. Qed.

Lemma keeps_get_collection_info self : keeps_client (get_collection_info self).
Proof. unfold get_collection_info, client_get_collection. keeps. Qed.

Lemma keeps_health_check self : keeps_client (health_check self).
Proof. unfold health_check, client_get_collections. keeps. Qed.

(** *** The accessor *)

Lemma get_qdrant_client_cached (w : World S) c :
  lru_cache w = Some c → get_qdrant_client settings w = (Ok c, w).
Proof. intros Hc. unfold get_qdrant_client, lru_cached. by rewrite Hc. Qed.

Lemma get_qdrant_client_first (w : World S) :
  lru_cache w = None →
  match get_qdrant_client settings w with
  | (Ok c, w') => lru_cache w' = Some c ∧ instances w' = Datatypes.S (instances w)
  | (Raise _, w') => lru_cache w' = None ∧ instances w' = instances w
  end.
Proof.
  intros Hc. unfold get_qdrant_client, lru_cached. rewrite Hc.
  erewrite bind_ok by reflexivity.
  assert (∀ w1 : World S,
            (if truthy_str (qdrant_api_key settings) then log INFO else log INFO) w1 =
              log INFO w1) as Hif by (intros w1; by destruct (truthy_str _)).
  erewrite bind_ok by apply Hif.
  unfold new_QdrantClient, mbind at 1, M_bind at 1. simpl.
  destruct (be_connect _ _ (store w)) as [[u|e] s1]; simpl; auto.
Qed.

Lemma bind_inv {A B} (m : M S A) (f : A → M S B) w b w' :
  (m ≫= f) w = (Ok b, w') → ∃ a w1, m w = (Ok a, w1) ∧ f a w1 = (Ok b, w').
Proof.
  unfold mbind, M_bind. destruct (m w) as [[a|e] w1]; [|intros [=]].
  intros Hf. by exists a, w1.
Qed.

(** [__init__] is the accessor followed by code that leaves the cache
    alone and stores the accessor's client in the service. *)
Lemma init_run name (w : World S) :
  match get_qdrant_client settings w with
  | (Raise e, w1) => __init__ settings name w = (Raise e, w1)
  | (Ok c, w1) =>
      lru_cache (__init__ settings name w).2 = lru_cache w1
      ∧ instances (__init__ settings name w).2 = instances w1
      ∧ ∀ self, (__init__ settings name w).1 = Ok self → client self = c
  end.
Proof.
  unfold __init__.
  destruct (get_qdrant_client settings w) as [[c|e] w1] eqn:Hacc.
  - erewrite bind_ok by exact Hacc. cbv zeta.
    match goal with
    | |- context [lru_cache (?rest w1).2] => set (tail := rest)
    end.
    assert (keeps_client tail) as Hkeeps.
    { subst tail. apply keeps_bind; [apply keeps_ensure_collection|]. intros _.
      apply keeps_bind; [apply keeps_get_vector_name|]. intros v.
      apply keeps_bind; [apply keeps_new_QdrantVectorStore|]. intros vs.
      apply keeps_bind; [apply keeps_log|]. intros _. apply keeps_ret. }
    destruct (Hkeeps w1) as [Hc Hi]. split_and!; [done | done |].
    intros self Hself. destruct (tail w1) as [r w'] eqn:Htail. simpl in Hself. subst r.
    subst tail.
    apply bind_inv in Htail as (? & w2 & _ & Htail).
    apply bind_inv in Htail as (v & w3 & _ & Htail).
    apply bind_inv in Htail as (vs & w4 & _ & Htail).
    apply bind_inv in Htail as (? & w5 & _ & Htail).
    by injection Htail as <- _.
  - by erewrite bind_raise by exact Hacc.
Qed.

(** *** Along the lifetime of a process *)

Lemma after_cached call (w : World S) c :
  lru_cache w = Some c →
  lru_cache (after settings uuid4 call w) = Some c
  ∧ instances (after settings uuid4 call w) = instances w.
Proof.
  intros Hc. destruct call as [| |name|self ds|self q k|self q k|self k|self|self|self];
    unfold after.
  - destruct (keeps_get_embedding_dimension w) as [-> ->]. done.
  - by rewrite (get_qdrant_client_cached w c Hc).
  - pose proof (init_run name w) as Hinit.
    rewrite (get_qdrant_client_cached w c Hc) in Hinit.
    destruct Hinit as (-> & -> & _). done.
  - destruct (keeps_add_documents self ds w) as [-> ->]. done.
  - destruct (keeps_search self q k w) as [-> ->]. done.
  - destruct (keeps_search_with_scores self q k w) as [-> ->]. done.
  - destruct (keeps_get_retriever self k w) as [-> ->]. done.
  - destruct (keeps_delete_collection self w) as [-> ->]. done.
  - destruct (keeps_get_collection_info self w) as [-> ->]. done.
  - destruct (keeps_health_check self w) as [-> ->]. done.
Qed.

Lemma after_at_most_one call (w : World S) :
  at_most_one_client w → at_most_one_client (after settings uuid4 call w).
Proof.
  unfold at_most_one_client. destruct (lru_cache w) as [c|] eqn:Hc.
  - intros Hi. destruct (after_cached call w c Hc) as [-> ->]. done.
  - intros Hi.
    destruct call as [| |name|self ds|self q k|self q k|self k|self|self|self];
      unfold after.
    + destruct (keeps_get_embedding_dimension w) as [-> ->]. by rewrite Hc.
    + pose proof (get_qdrant_client_first w Hc) as Hfirst.
      destruct (get_qdrant_client settings w) as [[cl|e] w1]; simpl;
        destruct Hfirst as [-> ->]; by rewrite ?Hi.
    + pose proof (init_run name w) as Hinit.
      pose proof (get_qdrant_client_first w Hc) as Hfirst.
      destruct (get_qdrant_client settings w) as [[cl|e] w1].
      * destruct Hinit as (-> & -> & _). destruct Hfirst as [-> ->]. by rewrite Hi.
      * rewrite Hinit. simpl. destruct Hfirst as [-> ->]. done.
    + destruct (keeps_add_documents self ds w) as [-> ->]. by rewrite Hc.
    + destruct (keeps_search self q k w) as [-> ->]. by rewrite Hc.
    + destruct (keeps_search_with_scores self q k w) as [-> ->]. by rewrite Hc.
    + destruct (keeps_get_retriever self k w) as [-> ->]. by rewrite Hc.
    + destruct (keeps_delete_collection self w) as [-> ->]. by rewrite Hc.
    + destruct (keeps_get_collection_info self w) as [-> ->]. by rewrite Hc.
    + destruct (keeps_health_check self w) as [-> ->]. by rewrite Hc.
Qed.

Lemma clients_handed_out_cons call rest (w : World S) :
  clients_handed_out settings uuid4 (call :: rest) w =
    (clients_handed_out settings uuid4 [call] w
       ++ clients_handed_out settings uuid4 rest (after settings uuid4 call w))%list.
Proof. simpl. by rewrite app_nil_r. Qed.

(** A client handed out by a call is the one in the cache after it. *)
Lemma handed_out_is_cached call (w : World S) cl :
  cl ∈ clients_handed_out settings uuid4 [call] w →
  lru_cache (after settings uuid4 call w) = Some cl.
Proof.
  destruct call as [| |name|self ds|self q k|self q k|self k|self|self|self]; simpl;
    try by intros ?%elem_of_nil.
  - destruct (lru_cache w) as [c|] eqn:Hc.
    + rewrite (get_qdrant_client_cached w c Hc). simpl.
      rewrite list_elem_of_singleton. by intros ->.
    + pose proof (get_qdrant_client_first w Hc) as Hfirst.
      destruct (get_qdrant_client settings w) as [[c|e] w1]; simpl.
      * rewrite list_elem_of_singleton. intros ->. by destruct Hfirst.
      * by intros ?%elem_of_nil.
  - pose proof (init_run name w) as Hinit.
    destruct (__init__ settings name w) as [[self|e] w'] eqn:Hrun; simpl;
      [|by intros ?%elem_of_nil].
    rewrite list_elem_of_singleton. intros ->.
    destruct (get_qdrant_client settings w) as [[c|e] w1] eqn:Hacc; [|discriminate Hinit].
    destruct Hinit as (Hcache & _ & Hclient). simpl in Hcache, Hclient.
    rewrite (Hclient self eq_refl), Hcache.
    destruct (lru_cache w) as [c0|] eqn:Hc.
    * rewrite (get_qdrant_client_cached w c0 Hc) in Hacc. by injection Hacc as <- <-.
    * pose proof (get_qdrant_client_first w Hc) as Hfirst. rewrite Hacc in Hfirst.
      by destruct Hfirst.
Qed.

Lemma handed_out_cached cs (w : World S) c cl :
  lru_cache w = Some c → cl ∈ clients_handed_out settings uuid4 cs w → cl = c.
Proof.
  revert w. induction cs as [|call rest IH]; intros w Hc; [by intros ?%elem_of_nil|].
  rewrite clients_handed_out_cons, elem_of_app.
  destruct (after_cached call w c Hc) as [Hc' _].
  intros [Hhead%handed_out_is_cached | Hrest].
  - congruence.
  - by apply (IH _ Hc').
Qed.

Lemma handed_out_agree cs (w : World S) c1 c2 :
  c1 ∈ clients_handed_out settings uuid4 cs w →
  c2 ∈ clients_handed_out settings uuid4 cs w →
  c1 = c2.
Proof.
  revert w. induction cs as [|call rest IH]; intros w; [by intros ?%elem_of_nil|].
  rewrite clients_handed_out_cons, !elem_of_app.
  intros [H1%handed_out_is_cached | H1] [H2%handed_out_is_cached | H2].
  - congruence.
  - symmetry. by eapply handed_out_cached.
  - by eapply handed_out_cached.
  - by eapply IH.
Qed.

Lemma lifetime_at_most_one cs (w : World S) :
  at_most_one_client w → at_most_one_client (lifetime settings uuid4 cs w).
Proof.
  revert w. induction cs as [|call rest IH]; intros w Hw; [done|].
  simpl. by apply IH, after_at_most_one.
Qed.

Lemma lifetime_cached cs (w : World S) c :
  lru_cache w = Some c → lru_cache (lifetime settings uuid4 cs w) = Some c.
Proof.
  revert w. induction cs as [|call rest IH]; intros w Hw; [done|].
  simpl. apply IH. by apply after_cached.
Qed.

End Client.

Example clients_handed_out_run :
  clients_handed_out Memory.test_settings Memory.counter_uuid
    [CallInit None; CallGetQdrantClient;
     CallAddDocuments Memory.service [Memory.doc "alpha"];
     CallInit (Some "archive")] (Memory.boot ∅ [])
  = [Memory.the_client; Memory.the_client; Memory.the_client].
Proof. vm_compute. reflexivity. Qed.

(** * Further properties of the module *)

(** ** What a computation sends and returns *)

Section Sends.

Context {S : Type}.
Variable P : request → Prop.

Lemma sends_ret {A} (Q : A → Prop) (a : A) : Q a → sends P Q (mret a : M S A).
Proof.
  intros Ha w. split.
  - exists []. by rewrite app_nil_r.
  - by intros b [= <-].
Qed.

Lemma sends_log (l : level) : sends P (λ _, True) (log l : M S unit).
Proof. intros w. split; [|done]. exists []. by rewrite app_nil_r. Qed.

Lemma sends_perform {A} r (answer : S → result A * S) :
  P r → sends P (λ _, True) (perform r answer).
Proof.
  intros Hr w. split; [|done]. exists [r]. unfold perform.
  destruct (answer (store w)). split; [done | by constructor].
Qed.

Lemma sends_weaken {A} (Q Q' : A → Prop) (m : M S A) :
  sends P Q m → (∀ a, Q a → Q' a) → sends P Q' m.
Proof.
  intros Hm HQ w. destruct (Hm w) as [Hrs Hval]. split; [done|].
  intros a Ha. by apply HQ, Hval.
Qed.

Lemma sends_bind {A B} (Q : A → Prop) (R : B → Prop) (m : M S A) (f : A → M S B) :
  sends P Q m → (∀ a, Q a → sends P R (f a)) → sends P R (m ≫= f).
Proof.
  intros Hm Hf w. unfold mbind, M_bind.
  destruct (Hm w) as [(rs & Hrs & HP) Hval].
  destruct (m w) as [[a|e] w1]; simpl in *.
  - destruct (Hf a (Hval a eq_refl) w1) as [(rs' & Hrs' & HP') Hval'].
    split; [|done]. exists (rs ++ rs')%list.
    rewrite Hrs', Hrs, app_assoc. split; [done | by apply Forall_app].
  - split; [by exists rs | done].
Qed.

Lemma sends_try {A} (Q : A → Prop) (body : M S A) catches handler :
  sends P Q body → (∀ e, sends P Q (handler e)) →
  sends P Q (try_except body catches handler).
Proof.
  intros Hb Hh w. unfold try_except.
  destruct (Hb w) as [(rs & Hrs & HP) Hval].
  destruct (body w) as [[a|e] w1]; simpl in *.
  - split; [by exists rs | done].
  - destruct (catches e).
    + destruct (Hh e w1) as [(rs' & Hrs' & HP') Hval'].
      split; [|done]. exists (rs ++ rs')%list.
      rewrite Hrs', Hrs, app_assoc. split; [done | by apply Forall_app].
    + split; [by exists rs | done].
Qed.

Lemma sends_lru_cached (Q : QdrantClient → Prop) body :
  sends P Q body → sends P (λ _, True) (lru_cached body : M S QdrantClient).
Proof.
  intros Hb w. unfold lru_cached. split; [|done].
  destruct (lru_cache w).
  - exists []. by rewrite app_nil_r.
  - destruct (Hb w) as [(rs & Hrs & HP) _].
    destruct (body w) as [[c|e] w1]; by exists rs.
Qed.

Lemma sends_uuid4_for_each uuid4 documents :
  sends P (λ _, True) (uuid4_for_each uuid4 documents : M S (list string)).
Proof.
  intros w. rewrite uuid4_for_each_draws. split; [|done].
  exists []. by rewrite app_nil_r.
Qed.

End Sends.

(** ** The requests each method can send *)

Section Traffic.

Context {S : Type} `{!Backend S}.
Variable settings : Settings.
Variable uuid4 : nat → string.
Variable P : request → Prop.

Hypothesis P_connect : ∀ url key, P (Connect url key).
Hypothesis P_get : ∀ name, P (GetCollection name).
Hypothesis P_create :
  ∀ name,
    P (CreateCollection name
         {| size := dimension_for (embedding_model settings); distance := COSINE |}).
Hypothesis P_list : P GetCollections.
Hypothesis P_open : ∀ name v, P (OpenVectorStore name v).
Hypothesis P_add : ∀ vs ds ids, P (AddDocuments vs ds ids).
Hypothesis P_search : ∀ vs q k, P (SimilaritySearch vs q k).
Hypothesis P_search_score : ∀ vs q k, P (SimilaritySearchWithScore vs q k).

Lemma sends_get_embedding_dimension :
  sends P (λ d, d = dimension_for (embedding_model settings))
    (get_embedding_dimension settings : M S Z).
Proof.
  intros w. destruct (get_embedding_dimension_run settings w) as [lvl ->]. split.
  - exists []. by rewrite app_nil_r.
  - by intros d [= <-].
Qed.

Lemma sends_new_QdrantClient url key :
  sends P (λ c, client_url c = url ∧ client_api_key c = key)
    (new_QdrantClient url key : M S QdrantClient).
Proof.
  intros w. unfold new_QdrantClient.
  destruct (be_connect url key (store w)) as [[u|e] s1]; simpl.
  - split; [|by intros c [= <-]]. exists [Connect url key]. split; [done|].
    by constructor.
  - split; [|done]. exists [Connect url key]. split; [done|]. by constructor.
Qed.

Lemma sends_get_qdrant_client :
  sends P (λ _, True) (get_qdrant_client settings : M S QdrantClient).
Proof.
  unfold get_qdrant_client. eapply sends_lru_cached.
  eapply sends_bind; [apply sends_log|]. intros _ _. cbv zeta.
  eapply sends_bind.
  { instantiate (1 := λ _, True). destruct (truthy_str _); apply sends_log. }
  intros _ _.
  eapply sends_bind; [apply sends_new_QdrantClient|]. intros c _.
  eapply sends_bind; [apply sends_log|]. intros _ _.
  by apply (sends_ret P (λ _, True)).
Qed.

Lemma sends_ensure_collection self :
  sends P (λ _, True) (_ensure_collection settings self).
Proof.
  unfold _ensure_collection, client_get_collection, client_create_collection.
  apply sends_try.
  - eapply sends_bind; [by apply sends_perform|]. intros info _. apply sends_log.
  - intros e.
    eapply sends_bind; [apply sends_get_embedding_dimension|]. intros d ->.
    eapply sends_bind; [apply sends_log|]. intros _ _.
    eapply sends_bind; [by apply sends_perform|]. intros _ _. apply sends_log.
Qed.

Lemma sends_get_vector_name self : sends P (λ _, True) (_get_vector_name self).
Proof.
  unfold _get_vector_name, client_get_collection.
  apply sends_try.
  - eapply sends_bind; [by apply sends_perform|]. intros info _. cbv zeta.
    destruct (info_vectors info) as [p|d|];
      [|destruct (d.*1)|];
      (eapply sends_bind; [apply sends_log|]; intros _ _;
       by apply (sends_ret P (λ _, True))).
  - intros e. eapply sends_bind; [apply sends_log|]. intros _ _.
    by apply (sends_ret P (λ _, True)).
Qed.

(** What [__init__] establishes about the service it returns. *)
Lemma sends_init name :
  sends P
    (λ self : VectorStoreService,
       collection_name self = or_str name (settings_collection_name settings)
       ∧ embeddings self = get_embeddings settings
       ∧ vs_client (vector_store self) = client self
       ∧ vs_collection_name (vector_store self) = collection_name self
       ∧ vs_embedding (vector_store self) = embeddings self)
    (__init__ settings name).
Proof.
  unfold __init__. cbv zeta.
  eapply sends_bind; [apply sends_get_qdrant_client|]. intros c _.
  eapply sends_bind; [apply sends_ensure_collection|]. intros _ _.
  eapply sends_bind; [apply sends_get_vector_name|]. intros v _.
  eapply sends_bind.
  { unfold new_QdrantVectorStore.
    eapply sends_bind; [by apply sends_perform|]. intros _ _.
    apply (sends_ret P (λ vs, vs_client vs = c
                              ∧ vs_collection_name vs
                                = or_str name (settings_collection_name settings)
                              ∧ vs_embedding vs = get_embeddings settings)).
    done. }
  intros vs (Hc & Hn & He).
  eapply sends_bind; [apply sends_log|]. intros _ _.
  apply sends_ret. simpl. by rewrite Hc, Hn, He.
Qed.

Lemma sends_add_documents self documents :
  sends P (λ _, True) (add_documents uuid4 self documents).
Proof.
  unfold add_documents, vector_store_add_documents.
  destruct documents as [|d rest].
  - eapply sends_bind; [apply sends_log|]. intros _ _.
    by apply (sends_ret P (λ _, True)).
  - eapply sends_bind; [apply sends_log|]. intros _ _.
    eapply sends_bind; [apply sends_uuid4_for_each|]. intros ids _.
    eapply sends_bind; [by apply sends_perform|]. intros _ _.
    eapply sends_bind; [apply sends_log|]. intros _ _.
    by apply (sends_ret P (λ _, True)).
Qed.

Lemma sends_search self query k : sends P (λ _, True) (search settings self query k).
Proof.
  unfold search, vector_store_similarity_search. cbv zeta.
  eapply sends_bind; [apply sends_log|]. intros _ _.
  eapply sends_bind; [by apply sends_perform|]. intros r _.
  eapply sends_bind; [apply sends_log|]. intros _ _.
  by apply (sends_ret P (λ _, True)).
Qed.

Lemma sends_search_with_scores self query k :
  sends P (λ _, True) (search_with_scores settings self query k).
Proof.
  unfold search_with_scores, vector_store_similarity_search_with_score. cbv zeta.
  eapply sends_bind; [apply sends_log|]. intros _ _.
  eapply sends_bind; [by apply sends_perform|]. intros r _.
  eapply sends_bind; [apply sends_log|]. intros _ _.
  by apply (sends_ret P (λ _, True)).
Qed.

Lemma sends_get_retriever self k :
  sends P (λ _, True) (get_retriever settings self k : M S Retriever).
Proof. unfold get_retriever. by apply (sends_ret P (λ _, True)). Qed.

Lemma sends_delete_collection (self : VectorStoreService) :
  P (DeleteCollection (collection_name self)) →
  sends P (λ _, True) (delete_collection self).
Proof.
  intros Hdel. unfold delete_collection, client_delete_collection.
  eapply sends_bind; [apply sends_log|]. intros _ _.
  eapply sends_bind; [by apply sends_perform|]. intros _ _. apply sends_log.
Qed.

Lemma sends_get_collection_info self :
  sends P (λ _, True) (get_collection_info self).
Proof.
  unfold get_collection_info, client_get_collection.
  apply sends_try.
  - eapply sends_bind; [by apply sends_perform|]. intros info _.
    by apply (sends_ret P (λ _, True)).
  - intros e. by apply (sends_ret P (λ _, True)).
Qed.

Lemma sends_health_check self : sends P (λ _, True) (health_check self).
Proof.
  unfold health_check, client_get_collections.
  apply sends_try.
  - eapply sends_bind; [by apply sends_perform|]. intros names _.
    by apply (sends_ret P (λ _, True)).
  - intros e. eapply sends_bind; [apply sends_log|]. intros _ _.
    by apply (sends_ret P (λ _, True)).
Qed.

(** Along a sequence of calls: deletions apart, which need [P] to allow
    them, every request sent satisfies [P]. *)
Lemma lifetime_sends cs (w : World S) :
  (∀ self, CallDeleteCollection self ∈ cs → P (DeleteCollection (collection_name self))) →
  ∃ rs, requests (lifetime settings uuid4 cs w) = (requests w ++ rs)%list ∧ Forall P rs.
Proof.
  revert w. induction cs as [|call rest IH]; intros w Hdel.
  - exists []. by rewrite app_nil_r.
  - assert (∃ rs, requests (after settings uuid4 call w) = (requests w ++ rs)%list
                  ∧ Forall P rs) as (rs & Hrs & HP).
    { destruct call as [| |name|self ds|self q k|self q k|self k|self|self|self];
        unfold after.
      - apply sends_get_embedding_dimension.
      - apply sends_get_qdrant_client.
      - apply sends_init.
      - apply sends_add_documents.
      - apply sends_search.
      - apply sends_search_with_scores.
      - apply sends_get_retriever.
      - apply sends_delete_collection, Hdel. by left.
      - apply sends_get_collection_info.
      - apply sends_health_check. }
    destruct (IH (after settings uuid4 call w)) as (rs' & Hrs' & HP').
    { intros self Hin. apply Hdel. by right. }
    exists (rs ++ rs')%list. simpl. rewrite Hrs', Hrs, app_assoc.
    split; [done | by apply Forall_app].
Qed.

End Traffic.

(** ** What the module never sends *)

Lemma no_delete_call cs self :
  forallb (λ c, negb (is_delete_call c)) cs = true → CallDeleteCollection self ∉ cs.
Proof.
  intros Hall Hin. rewrite forallb_forall in Hall.
  apply list_elem_of_In, Hall in Hin. discriminate Hin.
Qed.

(** X1. Only [delete_collection] deletes: along any sequence of calls
    that does not call it, no deletion request reaches the store. *)
Theorem only_delete_collection_deletes {S : Type} `{!Backend S} (st : Settings)
    (uuid4 : nat → string) (cs : list call) (w : World S) :
  forallb (λ c, negb (is_delete_call c)) cs = true →
  ∃ rs, requests (lifetime st uuid4 cs w) = (requests w ++ rs)%list
        ∧ ∀ name, DeleteCollection name ∉ rs.
Proof.
  intros Hcs.
  destruct (lifetime_sends st uuid4 not_delete) with (cs := cs) (w := w)
    as (rs & Hrs & HP); try done.
  - intros self Hin. by apply no_delete_call in Hin.
  - exists rs. split; [done|]. intros name Hin.
    rewrite Forall_forall in HP. exact (HP _ Hin).
Qed.

Lemma only_delete_collection_deletes_witness :
  ∃ rs,
    requests (lifetime Memory.test_settings Memory.counter_uuid
                [CallInit None;
                 CallAddDocuments Memory.service [Memory.doc "alpha"];
                 CallSearch Memory.service "alp" None;
                 CallGetCollectionInfo Memory.service]
                (Memory.boot ∅ [])) = (requests (Memory.boot ∅ []) ++ rs)%list
    ∧ ∀ name, DeleteCollection name ∉ rs.
Proof.
  apply (only_delete_collection_deletes Memory.test_settings Memory.counter_uuid
           [CallInit None;
            CallAddDocuments Memory.service [Memory.doc "alpha"];
            CallSearch Memory.service "alp" None;
            CallGetCollectionInfo Memory.service]
           (Memory.boot ∅ [])).
  reflexivity.
Defined.

(** X2. Every collection the module asks the store to create, along any
    sequence of calls, has the dimension the table gives for the
    configured model and cosine distance. *)
Theorem created_collections_match_configuration {S : Type} `{!Backend S}
    (st : Settings) (uuid4 : nat → string) (cs : list call) (w : World S) :
  ∃ rs, requests (lifetime st uuid4 cs w) = (requests w ++ rs)%list
        ∧ ∀ name cfg,
            CreateCollection name cfg ∈ rs →
            cfg = {| size := dimension_for (embedding_model st); distance := COSINE |}.
Proof.
  destruct (lifetime_sends st uuid4
              (creates_with {| size := dimension_for (embedding_model st);
                               distance := COSINE |}))
    with (cs := cs) (w := w) as (rs & Hrs & HP); try done.
  exists rs. split; [done|]. intros name cfg Hin.
  rewrite Forall_forall in HP. exact (HP _ Hin).
Qed.

(** ** Construction *)

(** X3. A service that [__init__] returns is consistent: its collection
    name is the one given, or the configured one when none or the empty
    string was given; its vector store is bound to the service's own
    client, collection and embeddings; and its client is the cached one.
    An empty name is the same call as no name. *)
Theorem init_service_consistent {S : Type} `{!Backend S} (st : Settings)
    (name : option string) (w : World S) :
  __init__ st (Some EmptyString) w = __init__ st None w
  ∧ ∀ self w',
      __init__ st name w = (Ok self, w') →
      (∀ n, name = Some n → n ≠ EmptyString → collection_name self = n)
      ∧ (name = None ∨ name = Some EmptyString →
         collection_name self = settings_collection_name st)
      ∧ vs_client (vector_store self) = client self
      ∧ vs_collection_name (vector_store self) = collection_name self
      ∧ vs_embedding (vector_store self) = embeddings self
      ∧ lru_cache w' = Some (client self).
Proof.
  split; [reflexivity|]. intros self w' Hrun.
  destruct (sends_init st (λ _, True)) with (name := name) (w := w) as [_ Hval];
    try done.
  destruct (Hval self) as (Hname & _ & Hc & Hn & He); [by rewrite Hrun|].
  split_and!; try done.
  - intros n -> Hne. rewrite Hname. by destruct n.
  - intros [-> | ->]; by rewrite Hname.
  - pose proof (handed_out_is_cached st (λ _, EmptyString) (CallInit name) w (client self))
      as Hcached.
    simpl in Hcached. rewrite Hrun in Hcached. simpl in Hcached.
    apply Hcached. by apply list_elem_of_singleton.
Qed.

Lemma init_service_consistent_witness :
  ∃ self w',
    __init__ Memory.test_settings (Some "archive") (Memory.boot ∅ []) = (Ok self, w')
    ∧ collection_name self = "archive"
    ∧ vs_collection_name (vector_store self) = "archive"
    ∧ lru_cache w' = Some (client self).
Proof.
  destruct (__init__ Memory.test_settings (Some "archive") (Memory.boot ∅ []))
    as [[self|e] w'] eqn:Hrun; [|by vm_compute in Hrun].
  exists self, w'. split; [reflexivity|].
  destruct (init_service_consistent Memory.test_settings (Some "archive")
              (Memory.boot ∅ [])) as [_ Hinit].
  destruct (Hinit self w' Hrun) as (Hgiven & _ & _ & Hvs & _ & Hcache).
  split_and!; [by apply Hgiven | | exact Hcache].
  rewrite Hvs. by apply Hgiven.
Defined.

(** ** Identifiers across calls *)

Section Draws.

Context {S : Type} `{!Backend S}.
Variable settings : Settings.
Variable uuid4 : nat → string.

Lemma draws_ret {A} (a : A) : draws_forward (mret a : M S A).
Proof. intros w. simpl. lia. Qed.

Lemma draws_log (l : level) : draws_forward (log l : M S unit).
Proof. intros w. simpl. lia. Qed.

Lemma draws_perform {A} r (answer : S → result A * S) : draws_forward (perform r answer).
Proof. intros w. unfold perform. destruct (answer (store w)). simpl. lia. Qed.

Lemma draws_bind {A B} (m : M S A) (f : A → M S B) :
  draws_forward m → (∀ a, draws_forward (f a)) → draws_forward (m ≫= f).
Proof.
  intros Hm Hf w. unfold mbind, M_bind. specialize (Hm w).
  destruct (m w) as [[a|e] w1]; simpl in *; [|done].
  specialize (Hf a w1). lia.
Qed.

Lemma draws_try {A} (body : M S A) catches handler :
  draws_forward body → (∀ e, draws_forward (handler e)) →
  draws_forward (try_except body catches handler).
Proof.
  intros Hb Hh w. unfold try_except. specialize (Hb w).
  destruct (body w) as [[a|e] w1]; simpl in *; [done|].
  destruct (catches e); [|done]. specialize (Hh e w1). lia.
Qed.

Lemma draws_get_qdrant_client :
  draws_forward (get_qdrant_client settings : M S QdrantClient).
Proof.
  intros w. unfold get_qdrant_client, lru_cached.
  destruct (lru_cache w); [simpl; lia|].
  erewrite bind_ok by reflexivity.
  assert (∀ w1 : World S,
            (if truthy_str (qdrant_api_key settings) then log INFO else log INFO) w1 =
              log INFO w1) as Hif by (intros w1; by destruct (truthy_str _)).
  erewrite bind_ok by apply Hif.
  unfold new_QdrantClient, mbind at 1, M_bind at 1. simpl.
  destruct (be_connect _ _ (store w)) as [[u|e] s1]; simpl; lia.
Qed.

Local Ltac draws :=
  repeat first
    [ apply draws_ret | apply draws_log | apply draws_perform
    | apply draws_bind; [|intros ?]
    | apply draws_try; [|intros ?]
    | progress cbv zeta
    | match goal with
      | |- draws_forward (match ?x with _ => _ end) => destruct x
      end ].

Lemma draws_ensure_collection self : draws_forward (_ensure_collection settings self).
Proof.
  unfold _ensure_collection, client_get_collection, client_create_collection,
    get_embedding_dimension.
  draws.
Qed.

Lemma draws_get_vector_name self : draws_forward (_get_vector_name self).
Proof. unfold _get_vector_name, client_get_collection. draws. Qed.

Lemma draws_init name : draws_forward (__init__ settings name).
Proof.
  unfold __init__. cbv zeta.
  apply draws_bind; [apply draws_get_qdrant_client|]. intros c.
  apply draws_bind; [apply draws_ensure_collection|]. intros _.
  apply draws_bind; [apply draws_get_vector_name|]. intros v.
  unfold new_QdrantVectorStore. draws.
Qed.

(** The identifiers of a call are the next draws, and the counter moves
    past them, whether the store accepts the documents or not. *)
Lemma add_documents_draws self documents (w : World S) :
  uuids_drawn (add_documents uuid4 self documents w).2
    = (uuids_drawn w + length documents)%nat
  ∧ ∀ ids, (add_documents uuid4 self documents w).1 = Ok ids →
           ids = uuid4 <$> seq (uuids_drawn w) (length documents).
Proof.
  destruct documents as [|d rest].
  - simpl. split; [lia | by intros ids [= <-]].
  - rewrite add_documents_run. simpl fst. simpl snd. split; [done|].
    intros ids. by destruct (be_add_documents _ _ _ _).1; intros [= <-].
Qed.

Lemma draws_after call : draws_forward (λ w : World S, (Ok tt, after settings uuid4 call w)).
Proof.
  intros w. simpl.
  destruct call as [| |name|self ds|self q k|self q k|self k|self|self|self];
    unfold after.
  - unfold get_embedding_dimension. destruct (EMBEDDING_DIMENSIONS !! _); simpl; lia.
  - apply draws_get_qdrant_client.
  - apply draws_init.
  - destruct (add_documents_draws self ds w) as [-> _]. lia.
  - revert w. change (draws_forward (search settings self q k)).
    unfold search, vector_store_similarity_search. draws.
  - revert w. change (draws_forward (search_with_scores settings self q k)).
    unfold search_with_scores, vector_store_similarity_search_with_score. draws.
  - simpl. lia.
  - revert w. change (draws_forward (delete_collection self)).
    unfold delete_collection, client_delete_collection. draws.
  - revert w. change (draws_forward (get_collection_info self)).
    unfold get_collection_info, client_get_collection. draws.
  - revert w. change (draws_forward (health_check self)).
    unfold health_check, client_get_collections. draws.
Qed.

Lemma lifetime_draws cs (w : World S) :
  (uuids_drawn w ≤ uuids_drawn (lifetime settings uuid4 cs w))%nat.
Proof.
  revert w. induction cs as [|call rest IH]; intros w; [done|].
  simpl. pose proof (draws_after call w) as Hstep. simpl in Hstep.
  specialize (IH (after settings uuid4 call w)). lia.
Qed.

(** X4. With a UUID source that never repeats, the identifiers returned
    by two calls of [add_documents] are disjoint, whatever the module was
    called with in between. *)
Theorem add_documents_ids_disjoint self1 documents1 self2 documents2 cs
    (w : World S) ids1 ids2 :
  Inj (=) (=) uuid4 →
  let w1 := (add_documents uuid4 self1 documents1 w).2 in
  (add_documents uuid4 self1 documents1 w).1 = Ok ids1 →
  (add_documents uuid4 self2 documents2 (lifetime settings uuid4 cs w1)).1 = Ok ids2 →
  ∀ i, i ∈ ids1 → i ∉ ids2.
Proof.
  intros Hinj w1 Hfirst Hsecond i Hin1 Hin2.
  destruct (add_documents_draws self1 documents1 w) as [Hcount Hids1].
  destruct (add_documents_draws self2 documents2 (lifetime settings uuid4 cs w1))
    as [_ Hids2].
  rewrite (Hids1 _ Hfirst) in Hin1. rewrite (Hids2 _ Hsecond) in Hin2.
  apply list_elem_of_fmap in Hin1 as (n1 & -> & Hn1%elem_of_seq).
  apply list_elem_of_fmap in Hin2 as (n2 & Heq%Hinj & Hn2%elem_of_seq).
  subst n2. pose proof (lifetime_draws cs w1) as Hmono.
  subst w1. rewrite Hcount in Hmono. lia.
Qed.

End Draws.

Lemma add_documents_ids_disjoint_witness :
  let first := add_documents Memory.counter_uuid Memory.service
                 [Memory.doc "alpha"; Memory.doc "beta"; Memory.doc "alp"] Memory.ready in
  let between := [CallSearch Memory.service "alp" None; CallHealthCheck Memory.service] in
  let second := add_documents Memory.counter_uuid Memory.service [Memory.doc "gamma"]
                  (lifetime Memory.test_settings Memory.counter_uuid between first.2) in
  first.1 = Ok ["0"; "1"; "2"] ∧ second.1 = Ok ["3"]
  ∧ ∀ i, i ∈ ["0"; "1"; "2"] → i ∉ ["3"].
Proof.
  intros first between second. split; [reflexivity|]. split; [reflexivity|].
  apply (add_documents_ids_disjoint Memory.test_settings Memory.counter_uuid
           Memory.service [Memory.doc "alpha"; Memory.doc "beta"; Memory.doc "alp"]
           Memory.service [Memory.doc "gamma"] between Memory.ready).
  - unfold Memory.counter_uuid. apply pretty_nat_inj.
  - reflexivity.
  - reflexivity.
Defined.

(** ** Errors and edges of the single methods *)

Section Methods.

Context {S : Type} `{!Backend S}.

(** X5. A given [k] other than zero is forwarded to the store as it is,
    a negative one included; [search] and [search_with_scores] send that
    one request and hand back the store's answer, value or exception,
    unchanged. *)
Theorem search_forwards_given_k (st : Settings) (self : VectorStoreService)
    (query : string) (n : Z) (w : World S) :
  n ≠ 0 →
  let plain := be_similarity_search (vector_store self) query n (store w) in
  let scored := be_similarity_search_with_score (vector_store self) query n (store w) in
  (search st self query (Some n) w).1 = plain.1
  ∧ store (search st self query (Some n) w).2 = plain.2
  ∧ requests (search st self query (Some n) w).2
      = (requests w ++ [SimilaritySearch (vector_store self) query n])%list
  ∧ (search_with_scores st self query (Some n) w).1 = scored.1
  ∧ store (search_with_scores st self query (Some n) w).2 = scored.2
  ∧ requests (search_with_scores st self query (Some n) w).2
      = (requests w ++ [SimilaritySearchWithScore (vector_store self) query n])%list.
Proof.
  intros Hn plain scored.
  assert (or_int (Some n) (retrieval_k st) = n) as Hk.
  { simpl. destruct (n =? 0) eqn:Hz; [|done]. by apply Z.eqb_eq in Hz. }
  destruct (search_run st self query (Some n) w) as (w1 & -> & Hs1 & Hr1).
  destruct (search_with_scores_run st self query (Some n) w) as (w2 & -> & Hs2 & Hr2).
  rewrite Hk in *. by split_and!.
Qed.

(** X6. [get_collection_info] answers "not_found" for an
    [UnexpectedResponse] of any status, raises every other exception of
    the lookup, and otherwise copies the counts and the status value; in
    each case it has sent the one lookup request and nothing else. *)
Theorem get_collection_info_cases (self : VectorStoreService) (w : World S) :
  let lookup := be_get_collection (collection_name self) (store w) in
  let out := get_collection_info self w in
  (∀ info, lookup.1 = Ok info →
     out.1 = Ok {| stats_name := collection_name self;
                   stats_points_count := info_points_count info;
                   stats_indexed_vectors_count := info_indexed_vectors_count info;
                   stats_status := status_value (info_status info) |})
  ∧ (∀ code, lookup.1 = Raise (UnexpectedResponse code) →
       out.1 = Ok {| stats_name := collection_name self;
                     stats_points_count := 0;
                     stats_indexed_vectors_count := 0;
                     stats_status := "not_found" |})
  ∧ (∀ e, lookup.1 = Raise e → is_UnexpectedResponse e = false → out.1 = Raise e)
  ∧ store out.2 = lookup.2
  ∧ requests out.2 = (requests w ++ [GetCollection (collection_name self)])%list.
Proof.
  intros lookup out. subst lookup out.
  unfold get_collection_info, client_get_collection.
  destruct (be_get_collection (collection_name self) (store w)) as [[info|e] s1] eqn:Hget;
    simpl.
  - erewrite try_ok
      by (erewrite bind_ok by (by apply perform_answer); reflexivity).
    split_and!; try done. by intros info' [= <-].
  - destruct (is_UnexpectedResponse e) eqn:Hcatch.
    + erewrite try_caught;
        [| by erewrite bind_raise by (by apply perform_answer) | done].
      split_and!; try done. intros e' [= <-] Hf. congruence.
    + erewrite try_passed;
        [| by erewrite bind_raise by (by apply perform_answer) | done].
      split_and!; try done.
      * intros code [= ->]. discriminate Hcatch.
      * by intros e' [= <-].
Qed.

(** X7. [health_check] sends exactly one request, the listing of the
    collections, and logs an error exactly when that request raised; the
    client cache and the UUID counter are left alone. *)
Theorem health_check_probe_only (self : VectorStoreService) (w : World S) :
  let probe := be_get_collections (store w) in
  let out := health_check self w in
  requests out.2 = (requests w ++ [GetCollections])%list
  ∧ store out.2 = probe.2
  ∧ logs out.2 = (logs w ++ match probe.1 with Ok _ => [] | Raise _ => [ERROR] end)%list
  ∧ lru_cache out.2 = lru_cache w
  ∧ uuids_drawn out.2 = uuids_drawn w.
Proof.
  intros probe out. subst probe out. unfold health_check, client_get_collections.
  destruct (be_get_collections (store w)) as [[names|e] s1] eqn:Hprobe; simpl.
  - erewrite try_ok
      by (erewrite bind_ok by (by apply perform_answer); reflexivity).
    simpl. by rewrite app_nil_r.
  - erewrite try_caught;
      [| by erewrite bind_raise by (by apply perform_answer) | done].
    done.
Qed.

(** X8. [delete_collection] has no handler: it sends one deletion request
    for the service's collection, returns when the store accepts it and
    raises the store's exception, whatever it is, when it does not. *)
Theorem delete_collection_outcome (self : VectorStoreService) (w : World S) :
  let answer := be_delete_collection (collection_name self) (store w) in
  let out := delete_collection self w in
  out.1 = match answer.1 with Ok _ => Ok tt | Raise e => Raise e end
  ∧ store out.2 = answer.2
  ∧ requests out.2 = (requests w ++ [DeleteCollection (collection_name self)])%list.
Proof.
  intros answer out. subst answer out. unfold delete_collection, client_delete_collection.
  erewrite bind_ok by reflexivity.
  destruct (be_delete_collection (collection_name self) (store w)) as [[b|e] s1] eqn:Hdel;
    simpl.
  - by erewrite bind_ok by (by apply perform_answer).
  - by erewrite bind_raise by (by apply perform_answer).
Qed.

End Methods.

Lemma search_forwards_given_k_witness :
  (search Memory.test_settings Memory.service "alpine" (Some (-1)) Memory.stocked).1
    = Raise (UnexpectedResponse 422)
  ∧ requests (search Memory.test_settings Memory.service "alpine" (Some (-1))
                Memory.stocked).2
    = (requests Memory.stocked
         ++ [SimilaritySearch (vector_store Memory.service) "alpine" (-1)])%list.
Proof.
  destruct (search_forwards_given_k Memory.test_settings Memory.service "alpine" (-1)
              Memory.stocked) as (Hres & _ & Hreq & _).
  - discriminate.
  - split; [rewrite Hres; reflexivity | exact Hreq].
Defined.

Lemma get_collection_info_cases_witness :
  (get_collection_info Memory.service
     (Memory.boot ∅ [Some (UnexpectedResponse 500)])).1
    = Ok {| stats_name := "documents";
            stats_points_count := 0;
            stats_indexed_vectors_count := 0;
            stats_status := "not_found" |}
  ∧ (get_collection_info Memory.service
       (Memory.boot ∅ [Some (ResponseHandlingException "timed out")])).1
    = Raise (ResponseHandlingException "timed out").
Proof.
  split.
  - destruct (get_collection_info_cases Memory.service
                (Memory.boot ∅ [Some (UnexpectedResponse 500)])) as (_ & Hhttp & _).
    apply (Hhttp 500). reflexivity.
  - destruct (get_collection_info_cases Memory.service
                (Memory.boot ∅ [Some (ResponseHandlingException "timed out")]))
      as (_ & _ & Hother & _).
    apply Hother; reflexivity.
Defined.

(** ** The first call of the accessor *)

Section Connecting.

Context {S : Type} `{!Backend S}.
Variable settings : Settings.

Lemma get_qdrant_client_run (w : World S) :
  lru_cache w = None →
  let key :=
    if truthy_str (qdrant_api_key settings) then qdrant_api_key settings else None in
  let c := {| instance_id := instances w; client_url := qdrant_url settings;
              client_api_key := key |} in
  get_qdrant_client settings w =
    match be_connect (qdrant_url settings) key (store w) with
    | (Ok _, s1) =>
        (Ok c, mkWorld s1 (requests w ++ [Connect (qdrant_url settings) key])
                 (logs w ++ [INFO; INFO; INFO]) (uuids_drawn w) (Some c)
                 (Datatypes.S (instances w)))
    | (Raise e, s1) =>
        (Raise e, mkWorld s1 (requests w ++ [Connect (qdrant_url settings) key])
                    (logs w ++ [INFO; INFO]) (uuids_drawn w) None (instances w))
    end.
Proof.
  intros Hc key c. unfold get_qdrant_client, lru_cached. rewrite Hc.
  erewrite bind_ok by reflexivity.
  assert (∀ w1 : World S,
            (if truthy_str (qdrant_api_key settings) then log INFO else log INFO) w1 =
              log INFO w1) as Hif by (intros w1; by destruct (truthy_str _)).
  erewrite bind_ok by apply Hif.
  unfold new_QdrantClient, mbind at 1, M_bind at 1. simpl. fold key.
  destruct (be_connect (qdrant_url settings) key (store w)) as [[u|e] s1]; simpl.
  - subst c. by rewrite <- !app_assoc.
  - rewrite Hc. by rewrite <- !app_assoc.
Qed.

(** X9. The first call of [get_qdrant_client] connects to the configured
    URL, with the API key only when one is configured and not empty. When
    the connection succeeds the new client carries that URL and key and is
    cached; when it raises, the exception reaches the caller, nothing is
    cached, and the next call connects again. *)
Theorem get_qdrant_client_first_call (w : World S) :
  lru_cache w = None →
  ∃ key,
    (qdrant_api_key settings = None ∨ qdrant_api_key settings = Some EmptyString →
     key = None)
    ∧ (∀ s, qdrant_api_key settings = Some s → s ≠ EmptyString → key = Some s)
    ∧ let answer := be_connect (qdrant_url settings) key (store w) in
      let out := get_qdrant_client settings w in
      let c := {| instance_id := instances w; client_url := qdrant_url settings;
                  client_api_key := key |} in
      requests out.2 = (requests w ++ [Connect (qdrant_url settings) key])%list
      ∧ store out.2 = answer.2
      ∧ match answer.1 with
        | Ok _ => out.1 = Ok c ∧ lru_cache out.2 = Some c
        | Raise e =>
            out.1 = Raise e
            ∧ lru_cache out.2 = None
            ∧ requests (get_qdrant_client settings out.2).2
              = (requests out.2 ++ [Connect (qdrant_url settings) key])%list
        end.
Proof.
  intros Hc.
  exists (if truthy_str (qdrant_api_key settings) then qdrant_api_key settings else None).
  split_and!.
  - by intros [-> | ->].
  - intros s -> Hs. by destruct s.
  - cbv zeta. rewrite (get_qdrant_client_run w Hc).
    destruct (be_connect _ _ (store w)) as [[u|e] s1]; simpl; [done|].
    split_and!; try done.
    rewrite get_qdrant_client_run by done. simpl.
    by destruct (be_connect _ _ s1) as [[u'|e'] s2].
Qed.

End Connecting.

Lemma get_qdrant_client_first_call_witness :
  let st := {| qdrant_url := "https://qdrant.example:6333";
               qdrant_api_key := Some EmptyString;
               settings_collection_name := "documents";
               embedding_model := "text-embedding-3-small";
               retrieval_k := 4 |} in
  let down := Memory.boot ∅ [Some (ResponseHandlingException "connection refused")] in
  requests (get_qdrant_client st down).2 = [Connect "https://qdrant.example:6333" None]
  ∧ (get_qdrant_client st down).1 = Raise (ResponseHandlingException "connection refused")
  ∧ lru_cache (get_qdrant_client st down).2 = None.
Proof.
  intros st down.
  destruct (get_qdrant_client_first_call st down) as (key & Hnone & _ & Hrun).
  - reflexivity.
  - rewrite (Hnone (or_intror eq_refl)) in Hrun. cbv zeta in Hrun.
    destruct Hrun as (Hreq & _ & Hout). split; [exact Hreq|].
    change (be_connect (qdrant_url st) None (store down)).1
      with (Raise (A := unit) (ResponseHandlingException "connection refused")) in Hout.
    destruct Hout as (Hres & Hcache & _). split; [exact Hres | exact Hcache].
Defined.

(** ** Existing collections *)

Section Existing.

Context {S : Type} `{!Backend S}.
Variable settings : Settings.

(** X10. [get_embedding_dimension] never contacts the store; it logs a
    warning exactly when the configured model is not a key of the table,
    and a debug line otherwise. *)
Theorem get_embedding_dimension_logs (w : World S) :
  let out := get_embedding_dimension settings w in
  requests out.2 = requests w
  ∧ store out.2 = store w
  ∧ (embedding_model settings ∈ known_models → logs out.2 = (logs w ++ [DEBUG])%list)
  ∧ (embedding_model settings ∉ known_models → logs out.2 = (logs w ++ [WARNING])%list).
Proof.
  intros out. subst out. unfold get_embedding_dimension. split_and!.
  - by destruct (EMBEDDING_DIMENSIONS !! _).
  - by destruct (EMBEDDING_DIMENSIONS !! _).
  - intros [d Hd]%known_models_are_keys. by rewrite Hd.
  - intros Hu. by rewrite (EMBEDDING_DIMENSIONS_unknown _ Hu).
Qed.

Lemma ensure_collection_exists_run (self : ServiceBase) (w : World S) info s1 :
  be_get_collection (collection_name self) (store w) = (Ok info, s1) →
  _ensure_collection settings self w =
    (Ok tt, mkWorld s1 (requests w ++ [GetCollection (collection_name self)])
              (logs w ++ [INFO]) (uuids_drawn w) (lru_cache w) (instances w)).
Proof.
  intros Hget. unfold _ensure_collection, client_get_collection.
  eapply try_ok. by erewrite bind_ok by (by apply perform_answer).
Qed.

Lemma get_vector_name_exact (self : ServiceBase) (w : World S) :
  let lookup := be_get_collection (collection_name self) (store w) in
  ∃ lvl,
    _get_vector_name self w =
      (Ok match lookup.1 with
          | Ok info =>
              match info_vectors info with
              | NamedVectors ((key, _) :: _) => key
              | _ => EmptyString
              end
          | Raise _ => EmptyString
          end,
       mkWorld lookup.2 (requests w ++ [GetCollection (collection_name self)])
         (logs w ++ [lvl]) (uuids_drawn w) (lru_cache w) (instances w)).
Proof.
  intros lookup. subst lookup. unfold _get_vector_name, client_get_collection.
  destruct (be_get_collection (collection_name self) (store w)) as [[info|e] s1] eqn:Hget;
    simpl.
  - unfold try_except.
    erewrite bind_ok by (by apply perform_answer). cbv zeta.
    destruct (info_vectors info) as [p|[|[key p] rest]|]; by exists INFO.
  - erewrite try_caught;
      [| by erewrite bind_raise by (by apply perform_answer) | done].
    by exists WARNING.
Qed.

(** X11. A collection that exists is taken as it is: whatever its vector
    configuration, [_ensure_collection] returns after the one lookup,
    without computing a dimension and without a creation request. *)
Theorem ensure_collection_trusts_existing (self : ServiceBase) (w : World S) info s1 :
  be_get_collection (collection_name self) (store w) = (Ok info, s1) →
  let out := _ensure_collection settings self w in
  out.1 = Ok tt
  ∧ store out.2 = s1
  ∧ requests out.2 = (requests w ++ [GetCollection (collection_name self)])%list
  ∧ logs out.2 = (logs w ++ [INFO])%list.
Proof.
  intros Hget out. subst out. by rewrite (ensure_collection_exists_run self w info s1 Hget).
Qed.

(** X12. Constructing a service on an existing collection, with the
    client already cached: the collection is looked up twice and the
    vector store opened, nothing else is sent. The vector name is read
    from the second lookup, and is empty when that lookup raises; an
    exception of the opening is the only one that reaches the caller. *)
Theorem init_on_existing_collection (name : option string) (w : World S) c info s1 :
  lru_cache w = Some c →
  let n := or_str name (settings_collection_name settings) in
  be_get_collection n (store w) = (Ok info, s1) →
  let second := be_get_collection n s1 in
  let v := match second.1 with
           | Ok info2 =>
               match info_vectors info2 with
               | NamedVectors ((key, _) :: _) => key
               | _ => EmptyString
               end
           | Raise _ => EmptyString
           end in
  let opened := be_open_vector_store n v second.2 in
  let out := __init__ settings name w in
  requests out.2 = (requests w ++ [GetCollection n; GetCollection n;
                                    OpenVectorStore n v])%list
  ∧ store out.2 = opened.2
  ∧ out.1 = match opened.1 with
            | Ok _ =>
                Ok {| base := {| collection_name := n; client := c;
                                 embeddings := get_embeddings settings |};
                      vector_store :=
                        {| vs_client := c; vs_collection_name := n;
                           vs_embedding := get_embeddings settings;
                           vs_vector_name := v |} |}
            | Raise e => Raise e
            end.
Proof.
  intros Hc n Hget second v opened out. subst out. unfold __init__. fold n.
  erewrite bind_ok by (by apply get_qdrant_client_cached). cbv zeta.
  set (self := {| collection_name := n; client := c;
                  embeddings := get_embeddings settings |}).
  erewrite bind_ok by (by apply (ensure_collection_exists_run self w info s1)).
  match goal with
  | |- context [(_get_vector_name self ≫= _) ?w1] =>
      destruct (get_vector_name_exact self w1) as [lvl Hname]
  end.
  simpl in Hname. fold second in Hname. fold v in Hname.
  erewrite bind_ok by exact Hname.
  unfold new_QdrantVectorStore. subst opened.
  destruct (be_open_vector_store n v second.2) as [[u|e] s3] eqn:Hopen; simpl.
  - erewrite bind_ok.
    2: { erewrite bind_ok by (by apply perform_answer). reflexivity. }
    erewrite bind_ok by reflexivity. simpl.
    split_and!; try done. by rewrite <- !app_assoc.
  - erewrite bind_raise.
    2: { by erewrite bind_raise by (by apply perform_answer). }
    simpl. split_and!; try done. by rewrite <- !app_assoc.
Qed.

End Existing.

Lemma get_embedding_dimension_logs_witness :
  logs (get_embedding_dimension
          {| qdrant_url := "http://qdrant:6333"; qdrant_api_key := None;
             settings_collection_name := "c";
             embedding_model := "all-MiniLM-L6-v2"; retrieval_k := 4 |}
          (Memory.boot ∅ [])).2 = [WARNING]
  ∧ logs (get_embedding_dimension Memory.test_settings (Memory.boot ∅ [])).2 = [DEBUG].
Proof.
  split.
  - destruct (get_embedding_dimension_logs
                {| qdrant_url := "http://qdrant:6333"; qdrant_api_key := None;
                   settings_collection_name := "c";
                   embedding_model := "all-MiniLM-L6-v2"; retrieval_k := 4 |}
                (Memory.boot ∅ [])) as (_ & _ & _ & Hwarn).
    apply Hwarn. simpl. unfold known_models. rewrite !not_elem_of_cons.
    split_and!; try done. apply not_elem_of_nil.
  - destruct (get_embedding_dimension_logs Memory.test_settings (Memory.boot ∅ []))
      as (_ & _ & Hdebug & _).
    apply Hdebug. simpl. unfold known_models. set_solver.
Defined.

Lemma ensure_collection_trusts_existing_witness :
  let out := _ensure_collection Memory.test_settings Memory.service_base
               (Memory.boot Memory.named_collections []) in
  out.1 = Ok tt
  ∧ requests out.2 = [GetCollection "documents"]
  ∧ Memory.collections (store out.2) = Memory.named_collections.
Proof.
  intros out.
  destruct (ensure_collection_trusts_existing Memory.test_settings Memory.service_base
              (Memory.boot Memory.named_collections [])
              {| info_status := GREEN; info_points_count := 0;
                 info_indexed_vectors_count := 0;
                 info_vectors :=
                   NamedVectors [("dense", {| size := 3072; distance := COSINE |});
                                 ("title", {| size := 1536; distance := DOT |})] |}
              {| Memory.collections := Memory.named_collections; Memory.faults := [] |})
    as (Hres & Hstore & Hreq & _).
  - reflexivity.
  - split; [exact Hres|]. split; [exact Hreq|]. subst out. by rewrite Hstore.
Defined.

Lemma init_on_existing_collection_witness :
  let w := (get_qdrant_client Memory.test_settings
              (Memory.boot Memory.named_collections
                 [None; None; Some (ResponseHandlingException "timed out")])).2 in
  let out := __init__ Memory.test_settings None w in
  requests out.2 = (requests w ++ [GetCollection "documents"; GetCollection "documents";
                                    OpenVectorStore "documents" EmptyString])%list
  ∧ (∃ self, out.1 = Ok self ∧ vs_vector_name (vector_store self) = EmptyString).
Proof.
  intros w out.
  destruct (init_on_existing_collection Memory.test_settings None w Memory.the_client
              {| info_status := GREEN; info_points_count := 0;
                 info_indexed_vectors_count := 0;
                 info_vectors :=
                   NamedVectors [("dense", {| size := 3072; distance := COSINE |});
                                 ("title", {| size := 1536; distance := DOT |})] |}
              {| Memory.collections := Memory.named_collections;
                 Memory.faults := [Some (ResponseHandlingException "timed out")] |})
    as (Hreq & _ & Hres).
  - reflexivity.
  - reflexivity.
  - split; [exact Hreq|]. eexists. split; [exact Hres | reflexivity].
Defined.

(** ** One client for the process *)

Section Once.

Context {S : Type} `{!Backend S}.
Variable settings : Settings.
Variable uuid4 : nat → string.

(** A client handed out along a sequence of calls is the one the cache
    holds at its end. *)
Lemma handed_out_cached_at_end cs (w : World S) c :
  c ∈ clients_handed_out settings uuid4 cs w →
  lru_cache (lifetime settings uuid4 cs w) = Some c.
Proof.
  revert w. induction cs as [|call rest IH]; intros w; [by intros ?%elem_of_nil|].
  rewrite clients_handed_out_cons, elem_of_app. simpl lifetime.
  intros [Hhead%handed_out_is_cached | Hrest].
  - by apply lifetime_cached.
  - by apply IH.
Qed.

(** With the client cached, a call sends no connection request. *)
Lemma cached_after_sends call (w : World S) c :
  lru_cache w = Some c →
  ∃ rs, requests (after settings uuid4 call w) = (requests w ++ rs)%list
        ∧ Forall not_connect rs.
Proof.
  intros Hc.
  destruct call as [| |name|self ds|self q k|self q k|self k|self|self|self];
    unfold after.
  - apply sends_get_embedding_dimension.
  - rewrite (get_qdrant_client_cached settings w c Hc). exists [].
    by rewrite app_nil_r.
  - unfold __init__. erewrite bind_ok by (by apply get_qdrant_client_cached). cbv zeta.
    match goal with
    | |- ∃ rs, requests (?m w).2 = _ ∧ _ =>
        assert (sends not_connect (λ _ : VectorStoreService, True) m) as Htail
    end.
    { eapply sends_bind; [by apply sends_ensure_collection|]. intros _ _.
      eapply sends_bind; [by apply sends_get_vector_name|]. intros v _.
      eapply sends_bind.
      { unfold new_QdrantVectorStore.
        eapply sends_bind; [by apply sends_perform|]. intros _ _.
        by apply (sends_ret not_connect (λ _, True)). }
      intros vs _.
      eapply sends_bind; [apply sends_log|]. intros _ _. by apply sends_ret. }
    apply Htail.
  - by apply sends_add_documents.
  - by apply sends_search.
  - by apply sends_search_with_scores.
  - apply sends_get_retriever.
  - by apply sends_delete_collection.
  - by apply sends_get_collection_info.
  - by apply sends_health_check.
Qed.

Lemma cached_lifetime_sends later (w : World S) c :
  lru_cache w = Some c →
  ∃ rs, requests (lifetime settings uuid4 later w) = (requests w ++ rs)%list
        ∧ Forall not_connect rs.
Proof.
  revert w. induction later as [|call rest IH]; intros w Hc.
  - exists []. by rewrite app_nil_r.
  - destruct (cached_after_sends call w c Hc) as (rs & Hrs & HP).
    destruct (after_cached settings uuid4 call w c Hc) as [Hc' _].
    destruct (IH _ Hc') as (rs' & Hrs' & HP').
    exists (rs ++ rs')%list. simpl. rewrite Hrs', Hrs, app_assoc.
    split; [done | by apply Forall_app].
Qed.

(** C9. In a process that starts with no client, along any sequence of
    calls into the module:
    - the first call of [get_qdrant_client] whose connection the store
      accepts, whenever it comes, constructs the client (the first
      instance of the process, with the configured URL and key), sends
      the one [Connect] request and leaves that client in the cache;
    - every client handed out, by [get_qdrant_client] itself and to each
      service [__init__] builds, is the client the cache holds, so all of
      them are one and the same instance, and exactly one client has been
      constructed by then; at no point more than one;
    - once a client is cached, every later call of the accessor returns
      it without touching the world, and no later call of the module
      sends a [Connect] request again. *)
Theorem one_client_per_process cs (w : World S) :
  fresh_process w →
  let w0 := lifetime settings uuid4 cs w in
  let key :=
    if truthy_str (qdrant_api_key settings) then qdrant_api_key settings else None in
  let c0 := {| instance_id := 0; client_url := qdrant_url settings;
               client_api_key := key |} in
  (∀ u s1,
      lru_cache w0 = None →
      be_connect (qdrant_url settings) key (store w0) = (Ok u, s1) →
      ∃ w1, get_qdrant_client settings w0 = (Ok c0, w1)
            ∧ lru_cache w1 = Some c0
            ∧ instances w1 = 1%nat
            ∧ store w1 = s1
            ∧ requests w1 = (requests w0 ++ [Connect (qdrant_url settings) key])%list)
  ∧ (∀ c, c ∈ clients_handed_out settings uuid4 cs w →
          lru_cache w0 = Some c ∧ instances w0 = 1%nat)
  ∧ (∀ c1 c2,
        c1 ∈ clients_handed_out settings uuid4 cs w →
        c2 ∈ clients_handed_out settings uuid4 cs w →
        c1 = c2)
  ∧ (instances w0 ≤ 1)%nat
  ∧ (∀ c later,
       lru_cache w0 = Some c →
       let w' := lifetime settings uuid4 later w0 in
       get_qdrant_client settings w' = (Ok c, w')
       ∧ instances w' = 1%nat
       ∧ ∃ rs, requests w' = (requests w0 ++ rs)%list
               ∧ ∀ url k, Connect url k ∉ rs).
Proof.
  intros [Hcache Hinst] w0 key c0.
  assert (at_most_one_client w0) as Hone.
  { apply lifetime_at_most_one. unfold at_most_one_client. by rewrite Hcache. }
  split_and!.
  - intros u s1 Hnone Hconnect.
    assert (instances w0 = 0%nat) as Hzero.
    { revert Hone. unfold at_most_one_client. by rewrite Hnone. }
    rewrite (get_qdrant_client_run settings w0 Hnone). fold key. rewrite Hconnect.
    rewrite Hzero. fold c0. by eexists.
  - intros c Hin. apply handed_out_cached_at_end in Hin. fold w0 in Hin.
    split; [done|]. revert Hone. unfold at_most_one_client. by rewrite Hin.
  - intros c1 c2. apply handed_out_agree.
  - revert Hone. unfold at_most_one_client. destruct (lru_cache w0); lia.
  - intros c later Hc w'.
    assert (lru_cache w' = Some c) as Hc' by (by apply lifetime_cached).
    split_and!.
    + by apply get_qdrant_client_cached.
    + assert (at_most_one_client w') as Hone' by (by apply lifetime_at_most_one).
      revert Hone'. unfold at_most_one_client. by rewrite Hc'.
    + destruct (cached_lifetime_sends later w0 c Hc) as (rs & Hrs & HP).
      exists rs. split; [done|]. intros url k Hin.
      rewrite Forall_forall in HP. exact (HP _ Hin).
Qed.

End Once.

Lemma one_client_per_process_witness :
  let cs := [CallInit None; CallGetQdrantClient;
             CallAddDocuments Memory.service [Memory.doc "alpha"];
             CallInit (Some "archive")] in
  let w := Memory.boot ∅ [] in
  let first := get_qdrant_client Memory.test_settings w in
  let w0 := lifetime Memory.test_settings Memory.counter_uuid cs w in
  first.1 = Ok Memory.the_client
  ∧ lru_cache first.2 = Some Memory.the_client
  ∧ instances first.2 = 1%nat
  ∧ requests first.2 = [Connect "http://localhost:6333" None]
  ∧ lru_cache w0 = Some Memory.the_client
  ∧ instances w0 = 1%nat
  ∧ ∃ rs, requests (lifetime Memory.test_settings Memory.counter_uuid
                      [CallGetQdrantClient; CallInit None] w0)
          = (requests w0 ++ rs)%list
          ∧ ∀ url k, Connect url k ∉ rs.
Proof.
  intros cs w first w0.
  destruct (one_client_per_process Memory.test_settings Memory.counter_uuid [] w)
    as (Hfirst & _); [split; reflexivity|].
  destruct (Hfirst tt {| Memory.collections := ∅; Memory.faults := [] |})
    as (w1 & Hrun & Hcached & Hcount & _ & Hreq); [reflexivity | reflexivity |].
  destruct (one_client_per_process Memory.test_settings Memory.counter_uuid cs w)
    as (_ & Hhanded & _ & _ & Hlater); [split; reflexivity|].
  destruct (Hhanded Memory.the_client) as [Hend Hone].
  { change (Memory.the_client
              ∈ [Memory.the_client; Memory.the_client; Memory.the_client]).
    by left. }
  destruct (Hlater Memory.the_client [CallGetQdrantClient; CallInit None] Hend)
    as (_ & _ & Hquiet).
  subst first. simpl in Hrun. rewrite Hrun. simpl fst. simpl snd.
  split_and!; try done.
Defined.
